(** * transcribo: the scriber pipeline ([internal/scriber]) and [main]

    A shallow embedding of [Scriber.Process], [Scriber.Collect], [New] and
    [main], together with the parts of Go's standard library they call
    ([filepath.Ext], [strings.Replace], buffered channels, [defer]).

    Go strings are byte sequences: they are modelled as [list ascii].
    Byte slices ([[]byte]) are [list byte]. *)

From Stdlib Require Import Ascii String ZArith.
From Stdlib Require Strings.Byte.
From stdpp Require Import base list strings gmap.

Open Scope list_scope.

Abbreviation gostring := (list ascii).

(** A Go string literal. *)
Definition go (s : string) : gostring := list_ascii_of_string s.

(** ** Go standard library: [unicode/utf8], [strings], [path/filepath] *)

Module utf8.

(** [first[s0] & 7]: the announced length of the encoding that starts
    with byte [b]; bytes that cannot start a multi-byte encoding (ASCII,
    continuation bytes, 0xC0, 0xC1, 0xF5..0xFF) give 1. *)
Definition size_of_first (b : N) : nat :=
  if (b <? 0xC2)%N then 1
  else if (b <? 0xE0)%N then 2
  else if (b <? 0xF0)%N then 3
  else if (b <? 0xF5)%N then 4
  else 1.

(** [acceptRanges[first[s0] >> 4]]: the range allowed for the second byte. *)
Definition accept (b : N) : N * N :=
  if (b =? 0xE0)%N then (0xA0, 0xBF)%N
  else if (b =? 0xED)%N then (0x80, 0x9F)%N
  else if (b =? 0xF0)%N then (0x90, 0xBF)%N
  else if (b =? 0xF4)%N then (0x80, 0x8F)%N
  else (0x80, 0xBF)%N.

Definition in_range (lo hi : N) (c : ascii) : bool :=
  let n := N_of_ascii c in ((lo <=? n) && (n <=? hi))%N.

(** The width returned by [utf8.DecodeRuneInString]: 0 on the empty
    string, 1 on ASCII and on every invalid encoding. *)
Definition DecodeRuneWidth (s : gostring) : nat :=
  match s with
  | [] => 0
  | s0 :: rest =>
      let b := N_of_ascii s0 in
      let sz := size_of_first b in
      if bool_decide (sz = 1) then 1
      else if bool_decide (length s < sz) then 1
      else
        let '(lo, hi) := accept b in
        match rest with
        | s1 :: rest1 =>
            if negb (in_range lo hi s1) then 1
            else if bool_decide (sz ≤ 2) then 2
            else match rest1 with
                 | s2 :: rest2 =>
                     if negb (in_range 0x80 0xBF s2) then 1
                     else if bool_decide (sz ≤ 3) then 3
                     else match rest2 with
                          | s3 :: _ =>
                              if negb (in_range 0x80 0xBF s3) then 1 else 4
                          | [] => 1
                          end
                 | [] => 1
                 end
        | [] => 1
        end
  end.

(** [utf8.RuneCountInString]: decode rune after rune; [fuel] bounds the
    number of iterations, [length s] always suffices since every rune of
    a non-empty string is at least one byte wide. *)
Fixpoint rune_count_loop (fuel : nat) (s : gostring) : nat :=
  match fuel with
  | 0 => 0
  | S fuel' =>
      match s with
      | [] => 0
      | _ => S (rune_count_loop fuel' (drop (DecodeRuneWidth s) s))
      end
  end.

Definition RuneCountInString (s : gostring) : nat :=
  rune_count_loop (length s) s.

End utf8.

Module strings.

(** [strings.HasPrefix]: [len(s) >= len(prefix) && s[:len(prefix)] == prefix]. *)
Definition HasPrefix (s prefix : gostring) : bool :=
  bool_decide (length prefix ≤ length s)
  && bool_decide (take (length prefix) s = prefix).

(** [strings.Index]: the index of the first instance of [substr] in [s];
    [None] stands for Go's [-1]. *)
Fixpoint Index (s substr : gostring) : option nat :=
  if HasPrefix s substr then Some 0
  else match s with
       | [] => None
       | _ :: s' => S <$> Index s' substr
       end.

(** The loop of [strings.Count] for a non-empty [substr]:
    [for { i := Index(s, substr); if i == -1 { return n }; n++;
           s = s[i+len(substr):] }]. *)
Fixpoint count_loop (fuel : nat) (s substr : gostring) : nat :=
  match fuel with
  | 0 => 0
  | S fuel' =>
      match Index s substr with
      | None => 0
      | Some i => S (count_loop fuel' (drop (i + length substr) s) substr)
      end
  end.

(** [strings.Count]: the number of non-overlapping instances of [substr];
    for the empty [substr], the number of runes plus one.  (The source
    counts a one-byte [substr] with a byte loop, which gives the same
    number.) *)
Definition Count (s substr : gostring) : nat :=
  match substr with
  | [] => utf8.RuneCountInString s + 1
  | _ => count_loop (S (length s)) s substr
  end.

(** The body of [strings.Replace] after [n] has been clamped:
    [k] iterations remain, [i] is the loop counter, [start] the position
    in [s] after the last replacement, [b] the builder.  [Index] cannot
    miss here, since [i < n <= Count(s, old)] (for the first iteration
    this is [Count_pos_Index]). *)
Fixpoint replace_loop (k i start : nat) (s old new b : gostring) : gostring :=
  match k with
  | 0 => b ++ drop start s
  | S k' =>
      let j :=
        match old with
        | [] => match i with
                | 0 => start
                | _ => start + utf8.DecodeRuneWidth (drop start s)
                end
        | _ => start + default 0 (Index (drop start s) old)
        end in
      replace_loop k' (S i) (j + length old) s old new
                   (b ++ take (j - start) (drop start s) ++ new)
  end.

(** [strings.Replace(s, old, new, n)]. *)
Definition Replace (s old new : gostring) (n : Z) : gostring :=
  if bool_decide (old = new) || (n =? 0)%Z then s
  else
    let m := Count s old in
    if bool_decide (m = 0) then s
    else
      let n' := if (n <? 0)%Z || (Z.of_nat m <? n)%Z then m else Z.to_nat n in
      replace_loop n' 0 0 s old new [].

End strings.

Module filepath.

Variant GOOS := unix | windows.

(** [os.IsPathSeparator]. *)
Definition IsPathSeparator (goos : GOOS) (c : ascii) : bool :=
  match goos with
  | unix => bool_decide (c = "/"%char)
  | windows => bool_decide (c = "/"%char) || bool_decide (c = "\"%char)
  end.

(** The loop of [filepath.Ext]; [n] is [i + 1]:
    [for i := len(path)-1; i >= 0 && !IsPathSeparator(path[i]); i--
       { if path[i] == '.' { return path[i:] } }; return ""]. *)
Fixpoint ext_loop (goos : GOOS) (path : gostring) (n : nat) : gostring :=
  match n with
  | 0 => []
  | S i =>
      match path !! i with
      | None => []
      | Some c =>
          if IsPathSeparator goos c then []
          else if bool_decide (c = "."%char) then drop i path
          else ext_loop goos path i
      end
  end.

Definition Ext (goos : GOOS) (path : gostring) : gostring :=
  ext_loop goos path (length path).

End filepath.

(** ** Values of the Go runtime and of the libraries the pipeline uses *)

Abbreviation bytes := (list Byte.byte).

(** Go [error] values: the ones the pipeline creates or receives. *)
Inductive error :=
| errors_New (msg : string)
| ExitError (code : Z)                    (* [*exec.ExitError] *)
| wrapError (prefix : string) (err : error). (* [fmt.Errorf(prefix + "%w", err)] *)

(** [errors.Unwrap]. *)
Definition Unwrap (e : error) : option error :=
  match e with
  | wrapError _ inner => Some inner
  | _ => None
  end.

Module time.
(** [time.Duration] is a count of nanoseconds. *)
Definition Nanosecond : Z := 1.
Definition Microsecond : Z := 1000 * Nanosecond.
Definition Millisecond : Z := 1000 * Microsecond.
Definition Second : Z := 1000 * Millisecond.
Definition Minute : Z := 60 * Second.
End time.

(** [context.Context] values, by the way they were derived. *)
Inductive Context :=
| Background
| cancelCtx (parent : Context)                  (* [context.WithCancel] *)
| timerCtx (parent : Context) (timeout : Z).    (* [context.WithTimeout] *)

Record CancelFunc := { cancels : Context }.

Module slog.
Variant Level := LevelInfo | LevelError.
Record Logger := { groups : list string }.
Record Attr := String { Key : string; Value : gostring }.
Definition Default : Logger := {| groups := [] |}.
Definition WithGroup (name : string) (l : Logger) : Logger :=
  {| groups := groups l ++ [name] |}.
End slog.

(** An [io.ReadCloser]: [rc_data] and [rc_err] are what [io.ReadAll]
    returns on it (the bytes read up to end of file or up to the first
    error, and that error). *)
Record ReadCloser := {
  rc_id : nat;
  rc_data : bytes;
  rc_err : option error;
}.

(** The [Input] interface.  [Data k] is the value the [k]-th call of the
    [Data()] method returns (counting from 0), so an implementation may
    hand out the same reader every time or a fresh one per call. *)
Record Input := {
  Name : gostring;
  OutputType : gostring;
  Language : gostring;
  Data : nat → ReadCloser;
}.

Record Output := {
  out_Name : gostring;
  out_Text : bytes;
}.

(** [whisperclient.TranscribeAudioInput]; [tai_Data] is the content of the
    buffer the [Data] reader points to. *)
Record TranscribeAudioInput := {
  tai_Name : gostring;
  tai_Language : gostring;
  tai_Format : gostring;
  tai_Data : bytes;
}.

Module httpclient.
Variant Option :=
| WithTimeout (d : Z)
| WithDialerTimeout (d : Z)
| WithDialerKeepAlive (d : Z)
| WithTLSHandshakeTimeout (d : Z)
| WithResponseHeaderTimeout (d : Z)
| WithIdleConnTimeout (d : Z)
| WithMaxIdleConns (n : Z)
| WithForceHTTP2Disabled.
Record Client := New { options : list Option }.
End httpclient.

Module whisperclient.
Record Client := New {
  httpCli : httpclient.Client;
  apiKey : gostring;
  model : gostring;
}.
End whisperclient.

Module exec.
(** Where a stream of the child process goes. *)
Variant Stream := nil | buffer | os_Stderr.

(** [exec.Cmd].  [ctx] is the context of [exec.CommandContext]; a
    command made by [exec.Command] has none. *)
Record Cmd := {
  Args : list gostring;
  Stdin : option bytes;
  Stdout : Stream;
  Stderr : Stream;
  ctx : option Context;
}.

Definition Command (name : gostring) (arg : list gostring) : Cmd :=
  {| Args := name :: arg; Stdin := None; Stdout := nil; Stderr := nil;
     ctx := None |}.

Definition set_Stdin (data : bytes) (c : Cmd) : Cmd :=
  {| Args := Args c; Stdin := Some data; Stdout := Stdout c;
     Stderr := Stderr c; ctx := ctx c |}.
Definition set_Stdout (o : Stream) (c : Cmd) : Cmd :=
  {| Args := Args c; Stdin := Stdin c; Stdout := o;
     Stderr := Stderr c; ctx := ctx c |}.
Definition set_Stderr (o : Stream) (c : Cmd) : Cmd :=
  {| Args := Args c; Stdin := Stdin c; Stdout := Stdout c;
     Stderr := o; ctx := ctx c |}.

(** What the operating system makes of a command: it cannot be started
    ([start_err]), or it runs to completion, writes [stdout] and [stderr]
    and exits with [exit_code]. *)
Record Process := {
  start_err : option error;
  stdout : bytes;
  stderr : bytes;
  exit_code : Z;
}.

Definition started (p : Process) : bool :=
  match start_err p with Some _ => false | None => true end.

(** What [cmd.Run()] leaves in the buffer behind [cmd.Stdout]. *)
Definition captured (c : Cmd) (p : Process) : bytes :=
  match Stdout c with
  | buffer => if started p then stdout p else []
  | _ => []
  end.

(** What [cmd.Run()] copies to the host's standard error stream. *)
Definition forwarded (c : Cmd) (p : Process) : bytes :=
  match Stderr c with
  | os_Stderr => if started p then stderr p else []
  | _ => []
  end.

(** The error of [cmd.Run()]. *)
Definition Run_err (p : Process) : option error :=
  match start_err p with
  | Some e => Some e
  | None => if (exit_code p =? 0)%Z then None else Some (ExitError (exit_code p))
  end.
End exec.

(** A buffered channel of [Output]. *)
Record Chan := {
  ch_cap : nat;
  ch_buf : list Output;
  ch_closed : bool;
}.

(** [whisperClient] is an interface in the source; what its
    [TranscribeAudio] answers is [env_transcribe] below.  [resultsCh] is
    the identity of the channel. *)
Record Scriber := {
  logger : slog.Logger;
  whisperClient : whisperclient.Client;
  resultsCh : nat;
}.

(** [<-chan Output]: the receive-only view of a channel. *)
Record RecvChan := recv_only { chan_of : nat }.

(** [app.App], as far as [main] builds it. *)
Record App := {
  app_logger : slog.Logger;
  app_scriberSvc : Scriber;
}.

(** ** Effects, programs and the world they run in *)

(** Calls registered by [defer]. *)
Variant Deferred :=
| DeferClose (r : ReadCloser)
| DeferCancel (c : CancelFunc).

(** What can be observed of a run, in order. *)
Inductive Event :=
| EvLog (l : slog.Logger) (lvl : slog.Level) (msg : string) (attrs : list slog.Attr)
| EvData (k : nat) (r : nat)
| EvReadAll (r : nat)
| EvClose (r : nat)
| EvRun (c : exec.Cmd)
| EvWithTimeout (parent : Context) (d : Z)
| EvCancel (c : Context)
| EvTranscribe (cli : whisperclient.Client) (c : Context) (i : TranscribeAudioInput)
| EvMake (ch : nat) (cap : nat)
| EvSend (ch : nat) (o : Output)
| EvRecv (ch : nat) (o : Output)
| EvCloseChan (ch : nat)
| EvGetenv (key : string)
| EvExit (code : Z)
| EvAppRun (a : App).

Record World := {
  w_trace : list Event;         (* oldest event first *)
  w_chans : gmap nat Chan;      (* the channels made so far *)
  w_stderr : bytes;             (* the host's standard error stream *)
  w_data_calls : nat;           (* calls of [Data()] on the input so far *)
}.

(** The behaviour of the collaborators outside the pipeline. *)
Record Env := {
  env_environ : gmap string gostring;
  env_exec : exec.Cmd → exec.Process;
  env_transcribe :
    whisperclient.Client → Context → TranscribeAudioInput → bytes * option error;
}.

Inductive Eff : Type → Type :=
| LogE (l : slog.Logger) (lvl : slog.Level) (msg : string) (attrs : list slog.Attr) : Eff unit
| DataE (i : Input) : Eff ReadCloser
| ReadAllE (r : ReadCloser) : Eff (bytes * option error)
| DeferE (d : Deferred) : Eff unit
| RunE (c : exec.Cmd) : Eff (bytes * option error)
| WithTimeoutE (parent : Context) (d : Z) : Eff (Context * CancelFunc)
| TranscribeE (cli : whisperclient.Client) (c : Context) (i : TranscribeAudioInput)
    : Eff (bytes * option error)
| MakeChanE (cap : nat) : Eff nat
| SendE (ch : nat) (o : Output) : Eff unit
| GetenvE (key : string) : Eff gostring
| ExitE (code : Z) : Eff Empty_set
| AppRunE (a : App) : Eff unit.

(** A function body: a tree of effects ending in a return value. *)
Inductive Prog (A : Type) : Type :=
| Ret (a : A)
| Vis {X : Type} (e : Eff X) (k : X → Prog A).
Arguments Ret {A} a.
Arguments Vis {A X} e k.

Fixpoint bind {A B : Type} (p : Prog A) (f : A → Prog B) : Prog B :=
  match p with
  | Ret a => f a
  | Vis e k => Vis e (λ x, bind (k x) f)
  end.

Definition call {X : Type} (e : Eff X) : Prog X := Vis e Ret.

#[global] Instance Prog_ret : MRet Prog := @Ret.
#[global] Instance Prog_bind : MBind Prog := λ A B f p, bind p f.

Definition emit (e : Event) (w : World) : World :=
  {| w_trace := w_trace w ++ [e]; w_chans := w_chans w;
     w_stderr := w_stderr w; w_data_calls := w_data_calls w |}.

Definition count_data_call (w : World) : World :=
  {| w_trace := w_trace w; w_chans := w_chans w;
     w_stderr := w_stderr w; w_data_calls := S (w_data_calls w) |}.

Definition write_stderr (b : bytes) (w : World) : World :=
  {| w_trace := w_trace w; w_chans := w_chans w;
     w_stderr := w_stderr w ++ b; w_data_calls := w_data_calls w |}.

Definition set_chan (ch : nat) (c : Chan) (w : World) : World :=
  {| w_trace := w_trace w; w_chans := <[ch := c]> (w_chans w);
     w_stderr := w_stderr w; w_data_calls := w_data_calls w |}.

(** One effect, seen from the goroutine that performs it: it goes on with
    a result, it is parked, it panics, or the whole process exits. *)
Variant Step (X : Type) : Type :=
| Next (x : X) (ds : list Deferred) (w : World)
| Park
| Panic (msg : string)
| Exit (code : Z) (w : World).
Arguments Next {X} x ds w.
Arguments Park {X}.
Arguments Panic {X} msg.
Arguments Exit {X} code w.

Definition handle (env : Env) {X : Type} (e : Eff X)
    (ds : list Deferred) (w : World) : Step X :=
  match e in Eff X return Step X with
  | LogE l lvl msg attrs => Next () ds (emit (EvLog l lvl msg attrs) w)
  | DataE i =>
      let r := Data i (w_data_calls w) in
      Next r ds (count_data_call (emit (EvData (w_data_calls w) (rc_id r)) w))
  | ReadAllE r => Next (rc_data r, rc_err r) ds (emit (EvReadAll (rc_id r)) w)
  | DeferE d => Next () (d :: ds) w
  | RunE c =>
      let p := env_exec env c in
      Next (exec.captured c p, exec.Run_err p) ds
        (write_stderr (exec.forwarded c p) (emit (EvRun c) w))
  | WithTimeoutE parent d =>
      let c := timerCtx parent d in
      Next (c, {| cancels := c |}) ds (emit (EvWithTimeout parent d) w)
  | TranscribeE cli c i =>
      Next (env_transcribe env cli c i) ds (emit (EvTranscribe cli c i) w)
  | MakeChanE cap =>
      let ch := fresh (dom (w_chans w)) in
      Next ch ds
        (set_chan ch {| ch_cap := cap; ch_buf := []; ch_closed := false |}
           (emit (EvMake ch cap) w))
  | SendE ch o =>
      match w_chans w !! ch with
      | None => Park         (* a nil channel: the send waits for ever *)
      | Some c =>
          if ch_closed c then Panic "send on closed channel"
          else if bool_decide (length (ch_buf c) < ch_cap c) then
            Next () ds
              (set_chan ch {| ch_cap := ch_cap c; ch_buf := ch_buf c ++ [o];
                              ch_closed := false |}
                 (emit (EvSend ch o) w))
          else Park          (* buffer full: wait for a receiver *)
      end
  | GetenvE key =>
      Next (default [] (env_environ env !! key)) ds (emit (EvGetenv key) w)
  | ExitE code => Exit code (emit (EvExit code) w)
  | AppRunE a => Next () ds (emit (EvAppRun a) w)
  end.

(** The deferred calls run when the function returns, last registered
    first.  The result of [Close] is discarded. *)
Definition run_deferred (d : Deferred) (w : World) : World :=
  match d with
  | DeferClose r => emit (EvClose (rc_id r)) w
  | DeferCancel c => emit (EvCancel (cancels c)) w
  end.

Fixpoint run_defers (ds : list Deferred) (w : World) : World :=
  match ds with
  | [] => w
  | d :: ds' => run_defers ds' (run_deferred d w)
  end.

(** How a call ends, or where it waits.  [Blocked p ds w] is a goroutine
    parked in front of [p] with the deferred calls [ds]; it is resumed by
    running [p] again in the world of that later moment. *)
Inductive Outcome (A : Type) : Type :=
| Returned (a : A) (w : World)
| Blocked (p : Prog A) (ds : list Deferred) (w : World)
| Panicked (msg : string) (w : World)
| Exited (code : Z) (w : World).
Arguments Returned {A} a w.
Arguments Blocked {A} p ds w.
Arguments Panicked {A} msg w.
Arguments Exited {A} code w.

Fixpoint run (env : Env) {A : Type} (p : Prog A)
    (ds : list Deferred) (w : World) : Outcome A :=
  match p with
  | Ret a => Returned a (run_defers ds w)
  | Vis e k =>
      match handle env e ds w with
      | Next x ds' w' => run env (k x) ds' w'
      | Park => Blocked p ds w
      | Panic msg => Panicked msg (run_defers ds w)
      | Exit code w' => Exited code w'
      end
  end.

(** What the owner and the consumer of a channel can do to it. *)
Definition recv (ch : nat) (w : World) : option (Output * World) :=
  match w_chans w !! ch with
  | Some c =>
      match ch_buf c with
      | o :: rest =>
          Some (o, set_chan ch {| ch_cap := ch_cap c; ch_buf := rest;
                                  ch_closed := ch_closed c |}
                     (emit (EvRecv ch o) w))
      | [] => None
      end
  | None => None
  end.

Definition close (ch : nat) (w : World) : option World :=
  match w_chans w !! ch with
  | Some c =>
      if ch_closed c then None
      else Some (set_chan ch {| ch_cap := ch_cap c; ch_buf := ch_buf c;
                                ch_closed := true |}
                   (emit (EvCloseChan ch) w))
  | None => None
  end.

(** ** The scriber package *)

Definition sampleRate : gostring := go "5200".

(** The methods [Info] and [Error] of [slog.Logger]. *)
Definition Logger_Info (l : slog.Logger) (msg : string) (attrs : list slog.Attr) : Prog unit :=
  call (LogE l slog.LevelInfo msg attrs).

Definition Logger_Error (l : slog.Logger) (msg : string) (attrs : list slog.Attr) : Prog unit :=
  call (LogE l slog.LevelError msg attrs).

Definition New (logger : slog.Logger) (whisperCli : whisperclient.Client) : Prog Scriber :=
  ch ← call (MakeChanE 10);
  mret {| logger := slog.WithGroup "scriber" logger;
          whisperClient := whisperCli;
          resultsCh := ch |}.

Definition ffmpeg_args : list gostring :=
  [ go "-y";
    go "-i"; go "pipe:0";
    go "-vn";
    go "-acodec"; go "pcm_s16le";
    go "-ar"; sampleRate;
    go "-ac"; go "2";
    go "-b:a"; go "32k";
    go "-f"; go "wav";
    go "pipe:1" ].

Section Build.

(** The operating system the program is built for ([filepath.Ext]
    depends on it). *)
Variable goos : filepath.GOOS.

(** The [Name] of the published [Output] (lines 97-101). *)
Definition output_name (i : Input) : gostring :=
  strings.Replace (Name i) (filepath.Ext goos (Name i))
                  ("."%char :: OutputType i) 1.

Definition Process (s : Scriber) (ctx : Context) (i : Input) : Prog (option error) :=
  Logger_Info (logger s) "Processing file" [slog.String "name" (Name i)];;
  r ← call (DataE i);
  '(data, err) ← call (ReadAllE r);
  match err with
  | Some err => mret (Some (wrapError "reading input: " err))
  | None =>
      r' ← call (DataE i);
      call (DeferE (DeferClose r'));;
      let cmd := exec.Command (go "ffmpeg") ffmpeg_args in
      let cmd := exec.set_Stdin data cmd in
      let cmd := exec.set_Stdout exec.buffer cmd in
      let cmd := exec.set_Stderr exec.os_Stderr cmd in
      Logger_Info (logger s) "Running ffmpeg" [slog.String "file" (Name i)];;
      '(outBuf, err) ← call (RunE cmd);
      match err with
      | Some err => mret (Some (wrapError "ffmpeg failed: " err))
      | None =>
          '(ctx, cancel) ← call (WithTimeoutE ctx (5 * time.Minute));
          call (DeferE (DeferCancel cancel));;
          Logger_Info (logger s) "Transcribing audio" [slog.String "file" (Name i)];;
          '(text, err) ← call (TranscribeE (whisperClient s) ctx
                                 {| tai_Name := Name i;
                                    tai_Language := Language i;
                                    tai_Format := OutputType i;
                                    tai_Data := outBuf |});
          match err with
          | Some err => mret (Some (wrapError "transcription failed: " err))
          | None =>
              call (SendE (resultsCh s)
                      {| out_Name := output_name i; out_Text := text |});;
              Logger_Info (logger s) "Processing complete" [slog.String "file" (Name i)];;
              mret None
          end
      end
  end.

End Build.

Definition Collect (s : Scriber) : RecvChan := recv_only (resultsCh s).

(** The rest of [Process] from the send on (lines 96-106): what a call
    parked at the send goes on with once it is resumed. *)
Definition Process_publish (s : Scriber) (i : Input) (o : Output) : Prog (option error) :=
  call (SendE (resultsCh s) o);;
  Logger_Info (logger s) "Processing complete" [slog.String "file" (Name i)];;
  mret None.

(** The command [Process] builds (lines 59-74). *)
Definition ffmpeg_cmd (data : bytes) : exec.Cmd :=
  {| exec.Args := go "ffmpeg" :: ffmpeg_args;
     exec.Stdin := Some data;
     exec.Stdout := exec.buffer;
     exec.Stderr := exec.os_Stderr;
     exec.ctx := None |}.

(** ** Reading a trace *)

Definition sends (t : list Event) : list (nat * Output) :=
  omap (λ e, match e with EvSend ch o => Some (ch, o) | _ => None end) t.

Definition chan_recvs (t : list Event) : list nat :=
  omap (λ e, match e with EvRecv ch _ => Some ch | _ => None end) t.

Definition chan_closes (t : list Event) : list nat :=
  omap (λ e, match e with EvCloseChan ch => Some ch | _ => None end) t.

Definition data_calls (t : list Event) : list (nat * nat) :=
  omap (λ e, match e with EvData k r => Some (k, r) | _ => None end) t.

Definition read_alls (t : list Event) : list nat :=
  omap (λ e, match e with EvReadAll r => Some r | _ => None end) t.

Definition closes (t : list Event) : list nat :=
  omap (λ e, match e with EvClose r => Some r | _ => None end) t.

Definition runs (t : list Event) : list exec.Cmd :=
  omap (λ e, match e with EvRun c => Some c | _ => None end) t.

Definition transcribes (t : list Event)
    : list (whisperclient.Client * Context * TranscribeAudioInput) :=
  omap (λ e, match e with EvTranscribe cli c i => Some (cli, c, i) | _ => None end) t.

Definition app_runs (t : list Event) : list App :=
  omap (λ e, match e with EvAppRun a => Some a | _ => None end) t.

(** The events a call added to the trace. *)
Definition events_since (w w' : World) : list Event :=
  drop (length (w_trace w)) (w_trace w').

(** The final world of an outcome. *)
Definition world_of {A : Type} (o : Outcome A) : World :=
  match o with
  | Returned _ w | Blocked _ _ w | Panicked _ w | Exited _ w => w
  end.

(** ** [main] *)

Definition whisperAIModel : gostring := go "whisper-1".

Definition app_New (logger : slog.Logger) (scriberSvc : Scriber) : App :=
  {| app_logger := slog.WithGroup "app" logger; app_scriberSvc := scriberSvc |}.

Definition main : Prog unit :=
  let logger := slog.Default in
  openAIKey ← call (GetenvE "OPENAI_API_KEY");
  (if bool_decide (openAIKey = [])
   then Logger_Error logger "OPENAI_API_KEY is required" [];;
        Vis (ExitE 1) (λ x : Empty_set, match x with end)
   else mret ());;
  s ← New logger
        (whisperclient.New
           (httpclient.New
              [ httpclient.WithTimeout (10 * time.Minute);
                httpclient.WithDialerTimeout (10 * time.Second);
                httpclient.WithDialerKeepAlive (30 * time.Second);
                httpclient.WithTLSHandshakeTimeout (10 * time.Second);
                httpclient.WithResponseHeaderTimeout (30 * time.Second);
                httpclient.WithIdleConnTimeout (30 * time.Second);
                httpclient.WithMaxIdleConns 25;
                httpclient.WithForceHTTP2Disabled ])
           openAIKey whisperAIModel);
  call (AppRunE (app_New logger s)).


(** ** What one call of [Process] meets

    The values [Process goos s ctx i], started in world [w], computes on
    its way, named after the variables of the source. *)

Section Call.
Variable goos : filepath.GOOS.
Variable env : Env.
Variable s : Scriber.
Variable ctx : Context.
Variable i : Input.
Variable w : World.

(** The reader of line 53, and the one of line 57. *)
Definition first_reader : ReadCloser := Data i (w_data_calls w).
Definition second_reader : ReadCloser := Data i (S (w_data_calls w)).

(** [cmd], and what the operating system makes of it. *)
Definition transcoder_cmd : exec.Cmd := ffmpeg_cmd (rc_data first_reader).
Definition transcoder_run : exec.Process := env_exec env transcoder_cmd.

(** The [ctx] of line 81, and the call of line 86 with its results. *)
Definition backend_ctx : Context := timerCtx ctx (5 * time.Minute).
Definition backend_input : TranscribeAudioInput :=
  {| tai_Name := Name i; tai_Language := Language i;
     tai_Format := OutputType i; tai_Data := exec.stdout transcoder_run |}.
Definition backend_result : bytes * option error :=
  env_transcribe env (whisperClient s) backend_ctx backend_input.

(** The value sent at line 96. *)
Definition the_output : Output :=
  {| out_Name := output_name goos i; out_Text := backend_result.1 |}.

Definition read_ok : Prop := rc_err first_reader = None.
Definition transcoding_ok : Prop := exec.Run_err transcoder_run = None.
Definition transcoding_failed : Prop :=
  exec.start_err transcoder_run ≠ None ∨ exec.exit_code transcoder_run ≠ 0%Z.
Definition transcription_ok : Prop := backend_result.2 = None.

Definition log_event (msg key : string) : Event :=
  EvLog (logger s) slog.LevelInfo msg [slog.String key (Name i)].

(** The events of lines 51-53, of lines 57-77 and of lines 81-91. *)
Definition read_events : list Event :=
  [ log_event "Processing file" "name";
    EvData (w_data_calls w) (rc_id first_reader);
    EvReadAll (rc_id first_reader) ].
Definition run_events : list Event :=
  [ EvData (S (w_data_calls w)) (rc_id second_reader);
    log_event "Running ffmpeg" "file";
    EvRun transcoder_cmd ].
Definition backend_events : list Event :=
  [ EvWithTimeout ctx (5 * time.Minute);
    log_event "Transcribing audio" "file";
    EvTranscribe (whisperClient s) backend_ctx backend_input ].

(** The deferred calls registered when line 96 is reached. *)
Definition pending_defers : list Deferred :=
  [DeferCancel {| cancels := backend_ctx |}; DeferClose second_reader].

(** The world in which the send of line 96 is attempted. *)
Definition send_world : World :=
  {| w_trace := w_trace w ++ read_events ++ run_events ++ backend_events;
     w_chans := w_chans w;
     w_stderr := w_stderr w ++ exec.forwarded transcoder_cmd transcoder_run;
     w_data_calls := S (S (w_data_calls w)) |}.

End Call.

(** [o] was published on the delivery channel of [s] between [w] and
    [w']: one send happened, and the buffer grew by [o] at its end. *)
Definition published_by (s : Scriber) (o : Output) (w w' : World) : Prop :=
  sends (events_since w w') = [(resultsCh s, o)]
  ∧ ∃ c, w_chans w !! resultsCh s = Some c
         ∧ w_chans w' !! resultsCh s
           = Some {| ch_cap := ch_cap c; ch_buf := ch_buf c ++ [o];
                     ch_closed := false |}.

(** The channel [ch] has a free slot in [w]. *)
Definition has_room (ch : nat) (w : World) : Prop :=
  ∃ c, w_chans w !! ch = Some c ∧ ch_closed c = false
       ∧ length (ch_buf c) < ch_cap c.

(** The channel [ch] is open and its buffer is full in [w]. *)
Definition is_full (ch : nat) (w : World) : Prop :=
  ∃ c, w_chans w !! ch = Some c ∧ ch_closed c = false
       ∧ ch_cap c ≤ length (ch_buf c).

(** The spec's wording of the output name, "the input name with its
    extension replaced by "." + OutputType": the name without its final
    extension, followed by the dot and the output type. *)
Definition ext_replaced (goos : filepath.GOOS) (name outputType : gostring) : gostring :=
  take (length name - length (filepath.Ext goos name)) name
    ++ "."%char :: outputType.

(** The events that concern the transcoder, the backend and contexts. *)
Definition is_call_event (e : Event) : bool :=
  match e with
  | EvRun _ | EvWithTimeout _ _ | EvTranscribe _ _ _ | EvCancel _ => true
  | _ => false
  end.

(** ** Concrete collaborators, inputs and worlds *)

Module Scenario.

Definition wav : bytes := [Byte.x52; Byte.x49; Byte.x46; Byte.x46].
Definition srt : bytes := [Byte.x31; Byte.x0a; Byte.x48; Byte.x69].
Definition media : bytes := [Byte.x00; Byte.x01; Byte.x02].

(** ffmpeg and the backend both succeed. *)
Definition env_ok : Env :=
  {| env_environ := {[ "OPENAI_API_KEY" := go "sk-test" ]};
     env_exec := λ _, {| exec.start_err := None; exec.stdout := wav;
                         exec.stderr := [Byte.x21]; exec.exit_code := 0 |};
     env_transcribe := λ _ _ _, (srt, None) |}.

(** ffmpeg exits with status 1. *)
Definition env_ffmpeg_fails : Env :=
  {| env_environ := {[ "OPENAI_API_KEY" := go "sk-test" ]};
     env_exec := λ _, {| exec.start_err := None; exec.stdout := [];
                         exec.stderr := [Byte.x21]; exec.exit_code := 1 |};
     env_transcribe := λ _ _ _, (srt, None) |}.

(** The credential is missing from the environment. *)
Definition env_no_key : Env :=
  {| env_environ := ∅;
     env_exec := env_exec env_ok;
     env_transcribe := env_transcribe env_ok |}.

Definition reader : ReadCloser :=
  {| rc_id := 1; rc_data := media; rc_err := None |}.

Definition broken_reader : ReadCloser :=
  {| rc_id := 1; rc_data := []; rc_err := Some (errors_New "unexpected EOF") |}.

(** The input type of the application: [Data()] returns its field. *)
Definition scriberInput (name : string) (data : ReadCloser) : Input :=
  {| Name := go name; OutputType := go "srt"; Language := go "en";
     Data := λ _, data |}.

(** An input that opens a new reader on every call of [Data()]. *)
Definition fresh_input (name : string) : Input :=
  {| Name := go name; OutputType := go "srt"; Language := go "en";
     Data := λ k, {| rc_id := k; rc_data := media; rc_err := None |} |}.

Definition cli : whisperclient.Client :=
  whisperclient.New (httpclient.New []) (go "sk-test") whisperAIModel.

Definition scriber0 : Scriber :=
  {| logger := slog.WithGroup "scriber" slog.Default;
     whisperClient := cli; resultsCh := 0 |}.

Definition world_with (buf : list Output) : World :=
  {| w_trace := [];
     w_chans := {[ 0 := {| ch_cap := 10; ch_buf := buf; ch_closed := false |} ]};
     w_stderr := []; w_data_calls := 0 |}.

Definition earlier : Output := {| out_Name := go "x.srt"; out_Text := srt |}.

Definition w_empty : World := world_with [].
Definition w_full : World := world_with (replicate 10 earlier).

Definition w_start : World :=
  {| w_trace := []; w_chans := ∅; w_stderr := []; w_data_calls := 0 |}.

End Scenario.


(** ** More ways to read a trace *)


Definition cancelled (t : list Event) : list Context :=
  omap (λ e, match e with EvCancel c => Some c | _ => None end) t.

(** The call has ended, by a return or by a panic. *)
Definition ended {A : Type} (o : Outcome A) : Prop :=
  match o with
  | Returned _ _ | Panicked _ _ => True
  | Blocked _ _ _ | Exited _ _ => False
  end.

(** ** The application package ([internal/app]): selecting files *)

Module app.



Record inputFile := {
  file_name : gostring;
  file_language : gostring;
  file_outputType : gostring;
  file_data : ReadCloser;
}.

(** [scriberInput] and its four methods: every call of [Data()] returns
    the reader in the field. *)
Record scriberInput := {
  in_name : gostring;
  in_language : gostring;
  in_outputType : gostring;
  in_data : ReadCloser;
}.

Definition as_Input (i : scriberInput) : Input :=
  {| Name := in_name i; Language := in_language i;
     OutputType := in_outputType i; Data := λ _, in_data i |}.

Record progressStatus := {
  filename : gostring;
  stage : gostring;
  err : option error;
}.

(** What the user gets to see. *)
Variant UiEvent :=
| ShowError (e : error)               (* [dialog.ShowError] *)
| SetStatusText (text : gostring)     (* [statusLabel.SetText] *)
| AddResult (text : gostring)         (* [resultsList.Add] of a new label *)
| ShowResults                         (* [resultsList.Show] *)
| HideProgressBar.                    (* [progressBar.Hide] *)

(** The byte-wise lowering [strings.ToLower] applies to a string of
    ASCII bytes. *)
Definition lower_byte (c : ascii) : ascii :=
  let n := N_of_ascii c in
  if ((65 <=? n) && (n <=? 90))%N then ascii_of_N (n + 32) else c.

Definition isASCII (s : gostring) : bool :=
  forallb (λ c, (N_of_ascii c <? 128)%N) s.

Section Select.

(** [strings.Map(unicode.ToLower, s)], which [strings.ToLower] falls
    back to for a string with a byte outside ASCII; it needs Unicode's
    case tables and stays a parameter. *)
Variable unicode_ToLower : gostring → gostring.

(** The operating system the program is built for. *)
Variable goos : filepath.GOOS.

Definition ToLower (s : gostring) : gostring :=
  if isASCII s then lower_byte <$> s else unicode_ToLower s.




End Select.


(** ** The application package: processing the selection

    [processFiles] runs in a goroutine of its own, [handleStatus] in
    another; they share the status channel and the mutex [a.mu].  Each
    is given as a step function on the state of the two. *)

(** The status channel, made in [initComponents] with capacity 10. *)
Record StatusChan := {
  st_cap : nat;
  st_buf : list progressStatus;
  st_closed : bool;
}.

Definition initComponents_statusCh : StatusChan :=
  {| st_cap := 10; st_buf := []; st_closed := false |}.

(** Where [processFiles] stands. *)
Inductive Producer :=
| P_start (files : list inputFile)   (* in front of [a.mu.RLock()] *)
| P_loop (rest : list inputFile)     (* at the head of the loop *)
| P_call (file : inputFile) (rest : list inputFile)
                                     (* "processing" is sent; in front of [Process] *)
| P_parked (p : Prog (option error)) (ds : list Deferred)
           (file : inputFile) (rest : list inputFile)
                                     (* inside [Process], parked at its send *)
| P_report (file : inputFile) (err : option error) (rest : list inputFile)
                                     (* [Process] has returned [err] *)
| P_hide                             (* behind the loop *)
| P_done                             (* returned *)
| P_crashed (msg : string).          (* panicked: the program is gone *)

(** Where [handleStatus] stands. *)
Inductive Consumer :=
| C_idle                             (* at the receive of [range statusCh] *)
| C_got (status : progressStatus)    (* in [updateStatus], in front of [a.mu.Lock()] *)
| C_waiting (status : progressStatus)(* [a.mu.Lock()] called, not yet granted *)
| C_exit.                            (* the channel is closed and drained *)

Record Sys := {
  sys_prod : Producer;
  sys_cons : Consumer;
  sys_status : StatusChan;
  sys_readers : nat;                 (* read locks held on [a.mu] *)
  sys_world : World;
  sys_ui : list UiEvent;
}.

(** [updateStatus] between [Lock] and [Unlock]: what it shows. *)
Definition updateStatus (status : progressStatus) : list UiEvent :=
  match err status with
  | Some e =>
      [ShowError (wrapError ("error processing file "
                               +:+ string_of_list_ascii (filename status) +:+ ": ") e)]
  | None =>
      SetStatusText (go "File: " ++ filename status
                       ++ "010"%char :: go "Status: " ++ stage status)
      :: (if bool_decide (stage status = go "completed")
          then [AddResult (go "Completed: " ++ filename status); ShowResults]
          else [])
  end.

Section Batch.

Variable goos : filepath.GOOS.
Variable env : Env.

(** [a.scriberSvc] and [a.ctx]. *)
Variable scriberSvc : Scriber.
Variable ctx : Context.

Definition set_prod (p : Producer) (y : Sys) : Sys :=
  {| sys_prod := p; sys_cons := sys_cons y; sys_status := sys_status y;
     sys_readers := sys_readers y; sys_world := sys_world y; sys_ui := sys_ui y |}.

(** A panic in [processFiles]: the deferred [RUnlock] runs. *)
Definition crash (msg : string) (y : Sys) : Sys :=
  {| sys_prod := P_crashed msg; sys_cons := sys_cons y; sys_status := sys_status y;
     sys_readers := pred (sys_readers y); sys_world := sys_world y;
     sys_ui := sys_ui y |}.

(** [a.components.statusCh <- status], after which [processFiles] stands
    at [next]; [None] when the send has to wait. *)
Definition send_status (status : progressStatus) (next : Producer) (y : Sys)
    : option Sys :=
  let c := sys_status y in
  if st_closed c then Some (crash "send on closed channel" y)
  else if bool_decide (length (st_buf c) < st_cap c) then
    Some {| sys_prod := next; sys_cons := sys_cons y;
            sys_status := {| st_cap := st_cap c; st_buf := st_buf c ++ [status];
                             st_closed := false |};
            sys_readers := sys_readers y; sys_world := sys_world y;
            sys_ui := sys_ui y |}
  else None.

(** How a call of [Process] that has come to a halt is taken up. *)
Definition after_Process (o : Outcome (option error))
    (file : inputFile) (rest : list inputFile) (y : Sys) : Sys :=
  match o with
  | Returned e w =>
      {| sys_prod := P_report file e rest; sys_cons := sys_cons y;
         sys_status := sys_status y; sys_readers := sys_readers y;
         sys_world := w; sys_ui := sys_ui y |}
  | Blocked p ds w =>
      {| sys_prod := P_parked p ds file rest; sys_cons := sys_cons y;
         sys_status := sys_status y; sys_readers := sys_readers y;
         sys_world := w; sys_ui := sys_ui y |}
  | Panicked msg w =>
      {| sys_prod := P_crashed msg; sys_cons := sys_cons y;
         sys_status := sys_status y; sys_readers := pred (sys_readers y);
         sys_world := w; sys_ui := sys_ui y |}
  | Exited _ w =>
      {| sys_prod := P_crashed "exit"; sys_cons := sys_cons y;
         sys_status := sys_status y; sys_readers := sys_readers y;
         sys_world := w; sys_ui := sys_ui y |}
  end.

Definition input_of (file : inputFile) : Input :=
  as_Input {| in_name := file_name file; in_language := file_language file;
              in_outputType := file_outputType file; in_data := file_data file |}.

(** One step of [processFiles]; [None] when it has to wait or is over. *)
Definition producer_step (y : Sys) : option Sys :=
  match sys_prod y with
  | P_start files =>
      (* RLock: refused while a writer is waiting for the lock *)
      match sys_cons y with
      | C_waiting _ => None
      | _ =>
          Some {| sys_prod := P_loop files; sys_cons := sys_cons y;
                  sys_status := sys_status y; sys_readers := S (sys_readers y);
                  sys_world := sys_world y; sys_ui := sys_ui y |}
      end
  | P_loop [] => Some (set_prod P_hide y)
  | P_loop (file :: rest) =>
      send_status {| filename := file_name file; stage := go "processing";
                     err := None |}
                  (P_call file rest) y
  | P_call file rest =>
      Some (after_Process
              (run env (Process goos scriberSvc ctx (input_of file)) [] (sys_world y))
              file rest y)
  | P_parked p ds file rest =>
      match run env p ds (sys_world y) with
      | Blocked _ _ _ => None
      | o => Some (after_Process o file rest y)
      end
  | P_report file (Some e) rest =>
      send_status {| filename := file_name file; stage := go "failed";
                     err := Some e |}
                  (P_loop rest) y
  | P_report file None rest =>
      send_status {| filename := file_name file; stage := go "completed";
                     err := None |}
                  (P_loop rest) y
  | P_hide =>
      (* [progressBar.Hide()], the return and the deferred [RUnlock] *)
      Some {| sys_prod := P_done; sys_cons := sys_cons y;
              sys_status := sys_status y; sys_readers := pred (sys_readers y);
              sys_world := sys_world y; sys_ui := sys_ui y ++ [HideProgressBar] |}
  | P_done | P_crashed _ => None
  end.

(** [updateStatus] once the lock is granted, back to the receive. *)
Definition show (status : progressStatus) (y : Sys) : Sys :=
  {| sys_prod := sys_prod y; sys_cons := C_idle; sys_status := sys_status y;
     sys_readers := sys_readers y; sys_world := sys_world y;
     sys_ui := sys_ui y ++ updateStatus status |}.

Definition set_cons (c : Consumer) (y : Sys) : Sys :=
  {| sys_prod := sys_prod y; sys_cons := c; sys_status := sys_status y;
     sys_readers := sys_readers y; sys_world := sys_world y; sys_ui := sys_ui y |}.

(** One step of [handleStatus]; [None] when it has to wait or is over. *)
Definition consumer_step (y : Sys) : option Sys :=
  match sys_prod y with
  | P_crashed _ => None
  | _ =>
      match sys_cons y with
      | C_idle =>
          let c := sys_status y in
          match st_buf c with
          | status :: rest =>
              Some {| sys_prod := sys_prod y; sys_cons := C_got status;
                      sys_status := {| st_cap := st_cap c; st_buf := rest;
                                       st_closed := st_closed c |};
                      sys_readers := sys_readers y; sys_world := sys_world y;
                      sys_ui := sys_ui y |}
          | [] => if st_closed c then Some (set_cons C_exit y) else None
          end
      | C_got status =>
          (* Lock: granted at once when no read lock is held *)
          if bool_decide (sys_readers y = 0) then Some (show status y)
          else Some (set_cons (C_waiting status) y)
      | C_waiting status =>
          if bool_decide (sys_readers y = 0) then Some (show status y) else None
      | C_exit => None
      end
  end.

(** The two goroutines take their steps in any order. *)
Definition step (y y' : Sys) : Prop :=
  producer_step y = Some y' ∨ consumer_step y = Some y'.

(** The state when the button has been tapped on the selection [files]
    of an application that has just been started. *)
Definition tapped (files : list inputFile) (w : World) : Sys :=
  {| sys_prod := P_start files; sys_cons := C_idle;
     sys_status := initComponents_statusCh; sys_readers := 0;
     sys_world := w; sys_ui := [] |}.

(** [processFiles] on its own, as far as it gets in [fuel] steps. *)
Fixpoint producer_run (fuel : nat) (y : Sys) : Sys :=
  match fuel with
  | 0 => y
  | S fuel' =>
      match producer_step y with
      | Some y' => producer_run fuel' y'
      | None => y
      end
  end.

(** [handleStatus] on its own, as far as it gets in [fuel] steps. *)
Fixpoint consumer_run (fuel : nat) (y : Sys) : Sys :=
  match fuel with
  | 0 => y
  | S fuel' =>
      match consumer_step y with
      | Some y' => consumer_run fuel' y'
      | None => y
      end
  end.

(** The calls of [Process] for the files one after the other, with
    their results, if every one of them returns. *)
Fixpoint batch (files : list inputFile) (w : World)
    : option (list (inputFile * option error) * World) :=
  match files with
  | [] => Some ([], w)
  | file :: rest =>
      match run env (Process goos scriberSvc ctx (input_of file)) [] w with
      | Returned e w' =>
          match batch rest w' with
          | Some (results, w'') => Some ((file, e) :: results, w'')
          | None => None
          end
      | _ => None
      end
  end.

(** The two statuses [processFiles] sends for a file. *)
Definition statuses_of (r : inputFile * option error) : list progressStatus :=
  [ {| filename := file_name r.1; stage := go "processing"; err := None |};
    match r.2 with
    | Some e => {| filename := file_name r.1; stage := go "failed"; err := Some e |}
    | None => {| filename := file_name r.1; stage := go "completed"; err := None |}
    end ].

(** The output [Process] sends for [file] when its three stages succeed. *)
Definition output_of (file : inputFile) : Output :=
  {| out_Name := output_name goos (input_of file);
     out_Text :=
       (env_transcribe env (whisperClient scriberSvc)
          (timerCtx ctx (5 * time.Minute))
          {| tai_Name := file_name file;
             tai_Language := file_language file;
             tai_Format := file_outputType file;
             tai_Data := exec.stdout
                           (env_exec env (ffmpeg_cmd (rc_data (file_data file)))) |}).1 |}.

(** The outputs of the files of a batch for which [Process] returned
    [nil], in the order of the files. *)
Definition published (results : list (inputFile * option error)) : list Output :=
  omap (λ r, match r.2 with
             | None => Some (output_of r.1)
             | Some _ => None
             end) results.

End Batch.

(** The sends [processFiles] still has to complete. *)
Definition remaining (p : Producer) : nat :=
  match p with
  | P_start files | P_loop files => 2 * length files
  | P_call _ rest | P_parked _ _ _ rest | P_report _ _ rest => S (2 * length rest)
  | P_hide | P_done | P_crashed _ => 0
  end.

(** The statuses [handleStatus] has received and not yet shown. *)
Definition held (c : Consumer) : nat :=
  match c with
  | C_got _ | C_waiting _ => 1
  | C_idle | C_exit => 0
  end.

(** What holds in every state that can be reached from [tapped] on [n]
    files. *)
Definition Inv (n : nat) (y : Sys) : Prop :=
  st_cap (sys_status y) = 10
  ∧ st_closed (sys_status y) = false
  ∧ length (st_buf (sys_status y)) ≤ 10
  ∧ match sys_prod y with
    | P_start files =>
        length files = n ∧ st_buf (sys_status y) = [] ∧ sys_cons y = C_idle
        ∧ sys_readers y = 0 ∧ sys_ui y = []
    | P_done => 2 * n ≤ 11
    | P_crashed _ => sys_ui y = []
    | p =>
        sys_readers y = 1 ∧ sys_ui y = [] ∧ sys_cons y ≠ C_exit
        ∧ remaining p + length (st_buf (sys_status y)) + held (sys_cons y) = 2 * n
    end.

End app.

Module AppScenario.

(** A file as the callback of the file dialog has added it. *)
Definition file (k : nat) (name : string) : app.inputFile :=
  {| app.file_name := go name; app.file_language := go "en";
     app.file_outputType := go "srt";
     app.file_data := {| rc_id := k; rc_data := Scenario.media; rc_err := None |} |}.

Definition five : list app.inputFile :=
  [file 1 "a.mp4"; file 2 "b.mp3"; file 3 "c.wav"; file 4 "d.webm"; file 5 "e.avi"].

Definition six : list app.inputFile := five ++ [file 6 "f.mp4"].

(** ffmpeg fails on the input of the second file and on no other. *)
Definition env_second_fails : Env :=
  {| env_environ := ∅;
     env_exec := λ c, {| exec.start_err := None; exec.stdout := Scenario.wav;
                         exec.stderr := [];
                         exec.exit_code :=
                           match exec.Stdin c with
                           | Some [Byte.x02] => 1
                           | _ => 0
                           end |};
     env_transcribe := λ _ _ _, (Scenario.srt, None) |}.

Definition three : list app.inputFile :=
  [ file 1 "a.mp4";
    {| app.file_name := go "b.mp3"; app.file_language := go "en";
       app.file_outputType := go "srt";
       app.file_data := {| rc_id := 2; rc_data := [Byte.x02]; rc_err := None |} |};
    file 3 "c.wav" ].

End AppScenario.

(** * Properties *)

(** ** [strings] and [filepath] *)

Example Ext_lecture : filepath.Ext filepath.unix (go "lecture.mp4") = go ".mp4".
Proof. reflexivity. Qed.

Example Ext_after_separator : filepath.Ext filepath.unix (go "a.b/clip") = [].
Proof. reflexivity. Qed.

Example Replace_lecture :
  strings.Replace (go "lecture.mp4") (go ".mp4") (go ".srt") 1 = go "lecture.srt".
Proof. reflexivity. Qed.

Example Replace_all :
  strings.Replace (go "oink oink oink") (go "k") (go "ky") (-1) = go "oinky oinky oinky".
Proof. reflexivity. Qed.

Example Replace_empty_old :
  strings.Replace (go "abc") [] (go "-") 3 = go "-a-b-c".
Proof. reflexivity. Qed.

Section StringLemmas.
Implicit Types s sub old new : gostring.

Lemma HasPrefix_true s sub : strings.HasPrefix s sub = true ↔ sub `prefix_of` s.
Proof.
  unfold strings.HasPrefix. rewrite andb_true_iff, !bool_decide_eq_true. split.
  - intros [_ H]. exists (drop (length sub) s). rewrite <- H at 1. by rewrite take_drop.
  - intros [t ->]. rewrite length_app. split; [lia|]. by rewrite take_app_length.
Qed.

Lemma HasPrefix_false s sub : strings.HasPrefix s sub = false ↔ ¬ sub `prefix_of` s.
Proof. rewrite <- HasPrefix_true. by destruct (strings.HasPrefix s sub). Qed.

(** [Index] returns the first position at which [sub] occurs. *)
Lemma Index_Some s sub i :
  strings.Index s sub = Some i →
  s = take i s ++ sub ++ drop (i + length sub) s
  ∧ ∀ k, k < i → ¬ sub `prefix_of` drop k s.
Proof.
  revert i. induction s as [|c s IH]; intros i; simpl.
  - destruct (strings.HasPrefix [] sub) eqn:E; [|done].
    intros [= <-]. apply HasPrefix_true in E as [t E].
    symmetry in E. apply app_eq_nil in E as [-> ->]. split; [done|lia].
  - destruct (strings.HasPrefix (c :: s) sub) eqn:E.
    + intros [= <-]. apply HasPrefix_true in E as [t E]. split; [|lia].
      simpl. rewrite E at 2. rewrite E at 1. by rewrite drop_app_length.
    + destruct (strings.Index s sub) as [i'|] eqn:Ei; [|done].
      intros [= <-]. destruct (IH i' eq_refl) as [H1 H2]. split.
      * simpl. by rewrite <- H1.
      * intros [|k] Hk; simpl; [by apply HasPrefix_false|]. apply H2. lia.
Qed.

Lemma Index_None s sub k :
  strings.Index s sub = None → ¬ sub `prefix_of` drop k s.
Proof.
  revert k. induction s as [|c s IH]; intros k; simpl.
  - destruct (strings.HasPrefix [] sub) eqn:E; [done|]. intros _.
    rewrite drop_nil. by apply HasPrefix_false.
  - destruct (strings.HasPrefix (c :: s) sub) eqn:E; [done|].
    destruct (strings.Index s sub) eqn:Ei; [done|]. intros _.
    destruct k; simpl; [by apply HasPrefix_false | by apply IH].
Qed.

Lemma Index_nil s : strings.Index s [] = Some 0.
Proof. by destruct s. Qed.

(** [Count] is positive exactly when [Index] finds an instance, which is
    why [Index] cannot miss in the first iteration of [replace_loop]. *)
Lemma Count_pos_Index s sub : strings.Count s sub ≠ 0 ↔ is_Some (strings.Index s sub).
Proof.
  destruct sub as [|c sub].
  - rewrite Index_nil. unfold strings.Count. split; [by eexists | lia].
  - unfold strings.Count. simpl strings.count_loop.
    destruct (strings.Index s (c :: sub)); split; try done.
Qed.

(** [strings.Replace] with [n = 1] rewrites the first instance of [old]. *)
Lemma Replace_1 s old new :
  strings.Replace s old new 1 =
    match strings.Index s old with
    | Some i => take i s ++ new ++ drop (i + length old) s
    | None => s
    end.
Proof.
  unfold strings.Replace. case_bool_decide as Heq; simpl.
  { subst new. destruct (strings.Index s old) as [i|] eqn:E; [|done].
    by apply Index_Some in E as [E _]. }
  case_bool_decide as Hm.
  { destruct (strings.Index s old) eqn:E; [|done].
    exfalso. apply (proj2 (Count_pos_Index s old)); eauto. }
  apply Count_pos_Index in Hm as Hi. destruct Hi as [i Hi]. rewrite Hi.
  replace (Z.of_nat (strings.Count s old) <? 1)%Z with false
    by (symmetry; apply Z.ltb_ge; lia).
  change (Z.to_nat 1) with 1. simpl.
  destruct old as [|c old].
  - rewrite Index_nil in Hi. injection Hi as <-. done.
  - rewrite drop_0, Hi. simpl. by rewrite Nat.sub_0_r, <- app_assoc.
Qed.

(** [Ext] is empty or the part of the path from its last dot on. *)
Lemma ext_loop_spec goos path n :
  n ≤ length path →
  filepath.ext_loop goos path n = []
  ∨ ∃ i, i < n ∧ path !! i = Some "."%char
         ∧ filepath.ext_loop goos path n = drop i path
         ∧ ∀ j, i < j < n → path !! j ≠ Some "."%char.
Proof.
  induction n as [|n IH]; intros Hn; simpl; [by left|].
  destruct (path !! n) as [c|] eqn:Hc; [|by left].
  destruct (filepath.IsPathSeparator goos c); [by left|].
  case_bool_decide as Hdot.
  - subst c. right. exists n. repeat split; [lia|done|]. intros j Hj. lia.
  - destruct IH as [IH|(i & Hi & Hd & He & Hl)]; [lia|by left|].
    right. exists i. repeat split; [lia|done|done|].
    intros j Hj. destruct (decide (j = n)) as [->|]; [congruence|]. apply Hl. lia.
Qed.

Lemma Ext_spec goos path :
  filepath.Ext goos path = []
  ∨ ∃ pre rest, path = pre ++ "."%char :: rest
                ∧ filepath.Ext goos path = "."%char :: rest
                ∧ "."%char ∉ rest.
Proof.
  unfold filepath.Ext.
  destruct (ext_loop_spec goos path (length path)) as [H|(i & Hi & Hd & He & Hl)];
    [done|by left|].
  right. exists (take i path), (drop (S i) path).
  assert (drop i path = "."%char :: drop (S i) path) as Hdrop
    by (by apply drop_S).
  repeat split.
  - by rewrite <- Hdrop, take_drop.
  - by rewrite He.
  - intros (j & Hj)%list_elem_of_lookup. rewrite lookup_drop in Hj.
    apply (Hl (S i + j)); [|done]. apply lookup_lt_Some in Hj. lia.
Qed.
End StringLemmas.

(** The fuel of the two loops is enough: more fuel changes nothing. *)
Lemma DecodeRuneWidth_pos (c : ascii) (s : gostring) :
  0 < utf8.DecodeRuneWidth (c :: s).
Proof.
  unfold utf8.DecodeRuneWidth.
  repeat (case_bool_decide || case_match); lia.
Qed.

Lemma rune_count_loop_enough (fuel : nat) (s : gostring) :
  length s ≤ fuel →
  utf8.rune_count_loop fuel s = utf8.RuneCountInString s.
Proof.
  unfold utf8.RuneCountInString.
  remember (length s) as n eqn:Hn. revert fuel s Hn.
  induction (lt_wf n) as [n _ IH]. intros fuel s -> Hle.
  destruct s as [|c s]; [by destruct fuel|].
  destruct fuel as [|fuel]; [simpl in Hle; lia|].
  simpl in Hle. cbn [length utf8.rune_count_loop]. f_equal.
  pose proof (DecodeRuneWidth_pos c s) as Hpos.
  set (rest := drop (utf8.DecodeRuneWidth (c :: s)) (c :: s)).
  assert (length rest < length (c :: s)) as Hlt.
  { unfold rest. rewrite length_drop. cbn [length]. lia. }
  cbn [length] in Hlt.
  rewrite (IH (length rest) Hlt fuel rest eq_refl) by lia.
  rewrite (IH (length rest) Hlt (length s) rest eq_refl) by lia.
  done.
Qed.

Lemma Index_Some_length (s sub : gostring) (i : nat) :
  strings.Index s sub = Some i → i + length sub ≤ length s.
Proof.
  revert i. induction s as [|c s IH]; intros i; simpl;
    destruct (strings.HasPrefix _ sub) eqn:E.
  - intros [= <-]. apply andb_true_iff in E as [E _].
    by apply bool_decide_eq_true in E.
  - done.
  - intros [= <-]. apply andb_true_iff in E as [E _].
    by apply bool_decide_eq_true in E.
  - destruct (strings.Index s sub) as [i'|]; [|done]. intros [= <-].
    specialize (IH i' eq_refl). simpl. lia.
Qed.

Lemma count_loop_enough (sub : gostring) (fuel : nat) (s : gostring) :
  sub ≠ [] → length s < fuel →
  strings.count_loop fuel s sub = strings.Count s sub.
Proof.
  intros Hsub. unfold strings.Count. destruct sub as [|c sub]; [done|]. clear Hsub.
  remember (length s) as n eqn:Hn. revert fuel s Hn.
  induction (lt_wf n) as [n _ IH]. intros fuel s -> Hlt.
  destruct fuel as [|fuel]; [lia|]. simpl.
  destruct (strings.Index s (c :: sub)) as [i|] eqn:Hi; [|done]. f_equal.
  pose proof (Index_Some_length _ _ _ Hi) as Hlen. simpl in Hlen.
  set (rest := drop (i + S (length sub)) s).
  assert (length rest < length s) as Hrest.
  { unfold rest. rewrite length_drop. lia. }
  rewrite (IH (length rest) Hrest fuel rest eq_refl) by lia.
  rewrite (IH (length rest) Hrest (length s) rest eq_refl) by lia.
  done.
Qed.

Section OutputName.
Variable goos : filepath.GOOS.

Lemma output_name_first_instance (i : Input) :
  let ext := filepath.Ext goos (Name i) in
  ∃ pre post,
    Name i = pre ++ ext ++ post
    ∧ (∀ k, k < length pre → ¬ ext `prefix_of` drop k (Name i))
    ∧ output_name goos i = pre ++ ("."%char :: OutputType i) ++ post
    ∧ (post ≠ [] → ∃ mid, post = mid ++ ext).
Proof.
  intros ext. subst ext. unfold output_name. rewrite Replace_1.
  pose proof (Ext_spec goos (Name i)) as HE.
  remember (filepath.Ext goos (Name i)) as ext eqn:E. clear E.
  remember (Name i) as name eqn:E. clear E.
  (* the extension is a suffix of the name, so [Index] finds it *)
  assert (∃ p0, name = p0 ++ ext ∧ (ext = [] ∨ ∃ rest, ext = "."%char :: rest ∧ "."%char ∉ rest))
    as (p0 & Hp0 & Hext).
  { destruct HE as [H|(pre & rest & H1 & H2 & H3)].
    - exists name. rewrite H, app_nil_r. eauto.
    - exists pre. rewrite H2. eauto. }
  clear HE.
  destruct (strings.Index name ext) as [i0|] eqn:Hi.
  2:{ exfalso. apply (Index_None name ext (length p0) Hi).
      rewrite Hp0 at 1. rewrite drop_app_length. done. }
  apply Index_Some in Hi as [Hsplit Hfirst].
  exists (take i0 name), (drop (i0 + length ext) name).
  split; [done|]. split.
  { intros k Hk. apply Hfirst. rewrite length_take in Hk. lia. }
  split; [done|]. intros Hpost.
  assert (i0 ≤ length p0) as Hle.
  { destruct (decide (i0 ≤ length p0)); [done|]. exfalso.
    apply (Hfirst (length p0)); [lia|]. rewrite Hp0 at 1. by rewrite drop_app_length. }
  assert (length name = length p0 + length ext) as Hlen by (by rewrite Hp0 at 1; rewrite length_app).
  assert (i0 + length ext < length name) as Hlt.
  { destruct (decide (i0 + length ext < length name)); [done|]. exfalso.
    apply Hpost. apply drop_ge. lia. }
  assert (i0 + length ext ≤ length p0) as Hnov.
  { destruct Hext as [->|(rest & Hrest & Hnodot)]; [simpl in *; lia|].
    destruct (decide (i0 + length ext ≤ length p0)); [done|]. exfalso.
    (* the dot that starts the final extension would lie inside [rest] *)
    assert (name !! length p0 = Some "."%char) as Hdot.
    { rewrite Hp0, Hrest. by rewrite list_lookup_middle. }
    rewrite Hsplit in Hdot.
    rewrite lookup_app_r in Hdot by (rewrite length_take; lia).
    rewrite length_take, Nat.min_l in Hdot by lia.
    rewrite lookup_app_l in Hdot by lia.
    rewrite Hrest in Hdot.
    destruct (length p0 - i0) as [|d] eqn:Hd; [lia|]. simpl in Hdot.
    apply Hnodot. by eapply list_elem_of_lookup_2. }
  exists (drop (i0 + length ext) p0).
  rewrite Hp0 at 1. by rewrite drop_app_le.
Qed.
End OutputName.

Lemma Ext_suffix goos name :
  name = take (length name - length (filepath.Ext goos name)) name
           ++ filepath.Ext goos name.
Proof.
  destruct (Ext_spec goos name) as [->|(pre & rest & H1 & H2 & _)].
  - by rewrite Nat.sub_0_r, firstn_all, app_nil_r.
  - rewrite H2. clear H2. subst name.
    by rewrite length_app, Nat.add_sub, take_app_length.
Qed.

(** When the first instance of the extension is the final one, the code
    does what the spec's wording says. *)
Lemma output_name_ext_replaced goos (i : Input) :
  strings.Index (Name i) (filepath.Ext goos (Name i))
    = Some (length (Name i) - length (filepath.Ext goos (Name i))) →
  output_name goos i = ext_replaced goos (Name i) (OutputType i).
Proof.
  intros Hi. unfold output_name, ext_replaced. rewrite Replace_1, Hi.
  pose proof (Ext_suffix goos (Name i)) as Hs.
  assert (length (filepath.Ext goos (Name i)) ≤ length (Name i)) as Hle.
  { rewrite Hs at 2. rewrite length_app. lia. }
  rewrite drop_ge by lia. by rewrite app_nil_r.
Qed.

(** C10: [Process] derives [Output.Name] by rewriting the first instance,
    anywhere in the input name, of the text of the name's final extension.
    If [pre] is the part of the name before that first instance and [post]
    the part after it, the output name is [pre], the dot and the output
    type, and [post]; and when the first instance is not the final one
    ([post] is not empty), [post] still ends with the extension, which is
    left in place. *)
Theorem output_name_replaces_first_instance goos (i : Input) (pre post : gostring) :
  Name i = pre ++ filepath.Ext goos (Name i) ++ post →
  (∀ k, k < length pre → ¬ filepath.Ext goos (Name i) `prefix_of` drop k (Name i)) →
  output_name goos i = pre ++ ("."%char :: OutputType i) ++ post
  ∧ (post ≠ [] →
     ∃ mid, post = mid ++ filepath.Ext goos (Name i)
            ∧ output_name goos i
              = pre ++ ("."%char :: OutputType i) ++ mid ++ filepath.Ext goos (Name i)).
Proof.
  intros Hname Hfirst.
  destruct (output_name_first_instance goos i) as (pre' & post' & Hn' & Hf' & Hout & Hend).
  remember (output_name goos i) as result eqn:E. clear E.
  remember (filepath.Ext goos (Name i)) as ext eqn:E. clear E.
  remember (Name i) as name eqn:E. clear E.
  assert (length pre = length pre') as Hlen.
  { destruct (Nat.lt_trichotomy (length pre) (length pre')) as [Hlt|[Heq|Hgt]]; [|done|].
    - exfalso. apply (Hf' _ Hlt). rewrite Hname at 1. rewrite drop_app_length.
      by apply prefix_app_r.
    - exfalso. apply (Hfirst _ Hgt). rewrite Hn' at 1. rewrite drop_app_length.
      by apply prefix_app_r. }
  assert (pre = pre') as <-.
  { apply (f_equal (take (length pre))) in Hn'. rewrite Hname in Hn' at 1.
    rewrite take_app_length, Hlen, take_app_length in Hn'. done. }
  assert (post = post') as <-.
  { rewrite Hname in Hn' at 1. by simplify_list_eq. }
  split; [done|]. intros Hpost. destruct (Hend Hpost) as [mid Hmid].
  exists mid. split; [done|]. rewrite Hout. by rewrite Hmid at 1.
Qed.

Lemma output_name_replaces_first_instance_witness :
  let i := Scenario.scriberInput "a.mp4.backup.mp4" Scenario.reader in
  filepath.Ext filepath.unix (Name i) = go ".mp4"
  ∧ output_name filepath.unix i = go "a.srt.backup.mp4"
  ∧ ∃ mid, go ".backup.mp4" = mid ++ go ".mp4"
           ∧ output_name filepath.unix i = go "a" ++ go ".srt" ++ mid ++ go ".mp4".
Proof.
  intros i.
  destruct (output_name_replaces_first_instance filepath.unix i (go "a") (go ".backup.mp4"))
    as [H1 H2].
  - reflexivity.
  - intros [|k] Hk [t Ht]; [discriminate Ht | simpl in Hk; lia].
  - split; [reflexivity|]. split; [exact H1|]. apply H2. discriminate.
Defined.

(** ** The paths through [Process] *)

Ltac unfold_prog :=
  unfold Process, Process_publish, New, main, Logger_Info, Logger_Error, call,
    mbind, Prog_bind, mret, Prog_ret.

Ltac unfold_call :=
  unfold read_ok, transcoding_ok, transcription_ok, send_world, pending_defers,
    read_events, run_events, backend_events, log_event, the_output,
    backend_result, backend_input, backend_ctx, transcoder_run, transcoder_cmd,
    first_reader, second_reader in *.

Lemma World_ext (a b : World) :
  w_trace a = w_trace b → w_chans a = w_chans b →
  w_stderr a = w_stderr b → w_data_calls a = w_data_calls b → a = b.
Proof. destruct a, b. simpl. by intros -> -> -> ->. Qed.

Ltac world_eq :=
  first [ reflexivity
        | apply World_ext; simpl; rewrite <- ?app_assoc; reflexivity ].

Lemma events_since_app (w : World) (t : list Event) tr ch se dc :
  tr = w_trace w ++ t →
  events_since w {| w_trace := tr; w_chans := ch; w_stderr := se;
                    w_data_calls := dc |} = t.
Proof. intros ->. unfold events_since. simpl. by rewrite drop_app_length. Qed.

Lemma Run_err_None_started (p : exec.Process) :
  exec.Run_err p = None → exec.started p = true.
Proof. unfold exec.Run_err, exec.started. by destruct (exec.start_err p). Qed.

Lemma Run_err_failed (p : exec.Process) :
  (exec.start_err p ≠ None ∨ exec.exit_code p ≠ 0%Z) ↔ exec.Run_err p ≠ None.
Proof.
  unfold exec.Run_err. destruct (exec.start_err p) as [e|].
  - split; [done|]. intros _. by left.
  - destruct (Z.eqb_spec (exec.exit_code p) 0) as [->|Hne]; split; try done.
    + by intros [?|?].
    + intros _. by right.
Qed.

Section Paths.
Variable goos : filepath.GOOS.
Variable env : Env.
Variable s : Scriber.
Variable ctx : Context.
Variable i : Input.
Variable w : World.

Lemma Process_read_failure e :
  rc_err (first_reader i w) = Some e →
  run env (Process goos s ctx i) [] w =
    Returned (Some (wrapError "reading input: " e))
      {| w_trace := w_trace w ++ read_events s i w;
         w_chans := w_chans w;
         w_stderr := w_stderr w;
         w_data_calls := S (w_data_calls w) |}.
Proof.
  intros He. unfold_call. unfold_prog. simpl. rewrite He. simpl.
  f_equal. world_eq.
Qed.

Lemma Process_ffmpeg_failure e :
  read_ok i w → exec.Run_err (transcoder_run env i w) = Some e →
  run env (Process goos s ctx i) [] w =
    Returned (Some (wrapError "ffmpeg failed: " e))
      {| w_trace := w_trace w ++ read_events s i w ++ run_events s i w
                      ++ [EvClose (rc_id (second_reader i w))];
         w_chans := w_chans w;
         w_stderr := w_stderr w
                     ++ exec.forwarded (transcoder_cmd i w) (transcoder_run env i w);
         w_data_calls := S (S (w_data_calls w)) |}.
Proof.
  intros Hr He. unfold_call. unfold_prog. simpl. rewrite Hr. simpl.
  change (exec.set_Stderr _ _) with (ffmpeg_cmd (rc_data (Data i (w_data_calls w)))).
  rewrite He. simpl. f_equal. world_eq.
Qed.

Lemma Process_transcription_failure e :
  read_ok i w → transcoding_ok env i w →
  (backend_result env s ctx i w).2 = Some e →
  run env (Process goos s ctx i) [] w =
    Returned (Some (wrapError "transcription failed: " e))
      (run_defers (pending_defers ctx i w) (send_world env s ctx i w)).
Proof.
  intros Hr Hp He. unfold_call. unfold_prog. simpl. rewrite Hr. simpl.
  change (exec.set_Stderr _ _) with (ffmpeg_cmd (rc_data (Data i (w_data_calls w)))).
  rewrite Hp. simpl. unfold exec.captured. simpl.
  rewrite (Run_err_None_started _ Hp).
  destruct (env_transcribe env _ _ _) as [text err] eqn:Ht. simpl in He. subst err.
  simpl. f_equal. world_eq.
Qed.

(** On the success path [Process] reaches the send of line 96 with two
    deferred calls pending. *)
Lemma Process_to_send :
  read_ok i w → transcoding_ok env i w → transcription_ok env s ctx i w →
  run env (Process goos s ctx i) [] w =
    run env (Process_publish s i (the_output goos env s ctx i w))
        (pending_defers ctx i w) (send_world env s ctx i w).
Proof.
  intros Hr Hp He. unfold_call. unfold_prog. simpl. rewrite Hr. simpl.
  change (exec.set_Stderr _ _) with (ffmpeg_cmd (rc_data (Data i (w_data_calls w)))).
  rewrite Hp. simpl. unfold exec.captured. simpl.
  rewrite (Run_err_None_started _ Hp).
  destruct (env_transcribe env _ _ _) as [text err] eqn:Ht. simpl in He. subst err.
  simpl.
  destruct (w_chans w !! resultsCh s) as [c|];
    [destruct (ch_closed c); [|case_bool_decide]|]; f_equal; world_eq.
Qed.

End Paths.

(** The send and what follows it, from any world and with any deferred
    calls pending. *)
Section Publish.
Variable env : Env.
Variable s : Scriber.
Variable i : Input.
Variable o : Output.
Variable ds : list Deferred.
Variable w : World.

Lemma publish_room c :
  w_chans w !! resultsCh s = Some c → ch_closed c = false →
  length (ch_buf c) < ch_cap c →
  run env (Process_publish s i o) ds w =
    Returned None
      (run_defers ds
         {| w_trace := w_trace w
                         ++ [EvSend (resultsCh s) o;
                             log_event s i "Processing complete" "file"];
            w_chans := <[resultsCh s := {| ch_cap := ch_cap c;
                                          ch_buf := ch_buf c ++ [o];
                                          ch_closed := false |}]> (w_chans w);
            w_stderr := w_stderr w; w_data_calls := w_data_calls w |}).
Proof.
  intros Hc Hcl Hroom. unfold_prog. simpl. rewrite Hc, Hcl.
  rewrite bool_decide_eq_true_2 by done. simpl. do 2 f_equal. world_eq.
Qed.

Lemma publish_full c :
  w_chans w !! resultsCh s = Some c → ch_closed c = false →
  ch_cap c ≤ length (ch_buf c) →
  run env (Process_publish s i o) ds w = Blocked (Process_publish s i o) ds w.
Proof.
  intros Hc Hcl Hfull. unfold_prog. simpl. rewrite Hc, Hcl.
  rewrite bool_decide_eq_false_2 by lia. done.
Qed.

Lemma publish_closed c :
  w_chans w !! resultsCh s = Some c → ch_closed c = true →
  run env (Process_publish s i o) ds w =
    Panicked "send on closed channel" (run_defers ds w).
Proof. intros Hc Hcl. unfold_prog. simpl. by rewrite Hc, Hcl. Qed.

Lemma publish_nil :
  w_chans w !! resultsCh s = None →
  run env (Process_publish s i o) ds w = Blocked (Process_publish s i o) ds w.
Proof. intros Hc. unfold_prog. simpl. by rewrite Hc. Qed.

End Publish.

(** Every call of [Process] takes one of six paths. *)
Lemma Process_cases goos env s ctx i w :
  let o := run env (Process goos s ctx i) [] w in
  let out := the_output goos env s ctx i w in
  let ds := pending_defers ctx i w in
  let w1 := send_world env s ctx i w in
  (∃ e, rc_err (first_reader i w) = Some e
        ∧ o = Returned (Some (wrapError "reading input: " e))
                {| w_trace := w_trace w ++ read_events s i w;
                   w_chans := w_chans w;
                   w_stderr := w_stderr w;
                   w_data_calls := S (w_data_calls w) |})
  ∨ (∃ e, read_ok i w ∧ exec.Run_err (transcoder_run env i w) = Some e
          ∧ o = Returned (Some (wrapError "ffmpeg failed: " e))
                  {| w_trace := w_trace w ++ read_events s i w ++ run_events s i w
                                  ++ [EvClose (rc_id (second_reader i w))];
                     w_chans := w_chans w;
                     w_stderr := w_stderr w
                                 ++ exec.forwarded (transcoder_cmd i w)
                                                   (transcoder_run env i w);
                     w_data_calls := S (S (w_data_calls w)) |})
  ∨ (∃ e, read_ok i w ∧ transcoding_ok env i w
          ∧ (backend_result env s ctx i w).2 = Some e
          ∧ o = Returned (Some (wrapError "transcription failed: " e))
                  (run_defers ds w1))
  ∨ (∃ c, read_ok i w ∧ transcoding_ok env i w ∧ transcription_ok env s ctx i w
          ∧ w_chans w !! resultsCh s = Some c ∧ ch_closed c = false
          ∧ length (ch_buf c) < ch_cap c
          ∧ o = Returned None
                  (run_defers ds
                     {| w_trace := w_trace w1
                                     ++ [EvSend (resultsCh s) out;
                                         log_event s i "Processing complete" "file"];
                        w_chans := <[resultsCh s := {| ch_cap := ch_cap c;
                                                      ch_buf := ch_buf c ++ [out];
                                                      ch_closed := false |}]> (w_chans w);
                        w_stderr := w_stderr w1;
                        w_data_calls := w_data_calls w1 |}))
  ∨ (read_ok i w ∧ transcoding_ok env i w ∧ transcription_ok env s ctx i w
     ∧ (w_chans w !! resultsCh s = None ∨ is_full (resultsCh s) w)
     ∧ o = Blocked (Process_publish s i out) ds w1)
  ∨ (∃ c, read_ok i w ∧ transcoding_ok env i w ∧ transcription_ok env s ctx i w
          ∧ w_chans w !! resultsCh s = Some c ∧ ch_closed c = true
          ∧ o = Panicked "send on closed channel" (run_defers ds w1)).
Proof.
  intros o out ds w1. subst o.
  destruct (rc_err (first_reader i w)) as [e|] eqn:Hr.
  { left. exists e. split; [done|]. by apply Process_read_failure. }
  destruct (exec.Run_err (transcoder_run env i w)) as [e|] eqn:Hp.
  { right; left. exists e. do 2 (split; [done|]). by apply Process_ffmpeg_failure. }
  destruct ((backend_result env s ctx i w).2) as [e|] eqn:Hb.
  { do 2 right; left. exists e. do 3 (split; [done|]).
    by apply Process_transcription_failure. }
  rewrite Process_to_send by done. fold out ds w1.
  destruct (w_chans w !! resultsCh s) as [c|] eqn:Hc.
  2:{ do 4 right; left. do 3 (split; [done|]). split; [by left|].
      by apply publish_nil. }
  destruct (ch_closed c) eqn:Hcl.
  { do 5 right. exists c. do 5 (split; [done|]). by eapply publish_closed. }
  destruct (decide (length (ch_buf c) < ch_cap c)) as [Hroom|Hfull].
  - do 3 right; left. exists c. do 6 (split; [done|]).
    by rewrite (publish_room env s i out ds w1 c).
  - do 4 right; left. do 3 (split; [done|]). split.
    + right. exists c. repeat split; [done..|lia].
    + eapply publish_full; [done..|lia].
Qed.

(** Destructs [Process_cases] and computes the events of the call. *)
Ltac process_cases goos env s ctx i w :=
  let e := fresh "e" in
  let c := fresh "c" in
  destruct (Process_cases goos env s ctx i w)
    as [(e & ? & ->)
       |[(e & ? & ? & ->)
        |[(e & ? & ? & ? & ->)
         |[(c & ? & ? & ? & ? & ? & ? & ->)
          |[(? & ? & ? & ? & ->)
           |(c & ? & ? & ? & ? & ? & ->)]]]]];
  unfold world_of, send_world, pending_defers, run_defers, run_deferred, emit;
  cbn [w_trace w_chans w_stderr w_data_calls];
  rewrite <- ?app_assoc;
  try (erewrite events_since_app by reflexivity).

(** A run of the whole pipeline on the application's input type. *)
Example Process_lecture :
  let i := Scenario.scriberInput "lecture.mp4" Scenario.reader in
  let o := run Scenario.env_ok (Process filepath.unix Scenario.scriber0 Background i) []
             Scenario.w_empty in
  let t := events_since Scenario.w_empty (world_of o) in
  (∃ w', o = Returned None w')
  ∧ data_calls t = [(0, 1); (1, 1)]
  ∧ read_alls t = [1]
  ∧ runs t = [ffmpeg_cmd Scenario.media]
  ∧ transcribes t
    = [(Scenario.cli, timerCtx Background 300000000000,
        {| tai_Name := go "lecture.mp4"; tai_Language := go "en";
           tai_Format := go "srt"; tai_Data := Scenario.wav |})]
  ∧ sends t = [(0, {| out_Name := go "lecture.srt"; out_Text := Scenario.srt |})]
  ∧ closes t = [1]
  ∧ w_stderr (world_of o) = [Byte.x21].
Proof. intros i o t. split; [by eexists|]. by repeat split. Qed.

(** ** The claims about [Process], [New] and [Collect] *)

Lemma five_minutes : (5 * time.Minute = 300000000000)%Z.
Proof. reflexivity. Qed.

(** C5: what a call of [Process] does with the transcoder, the backend
    and contexts is fixed by how far the call gets.  The command of the
    transcoder carries no context (it was made by [exec.Command], so no
    deadline governs it).  A call whose read fails reaches neither the
    transcoder nor a context; a call whose transcoder fails has run the
    transcoder and has made no context.  A call whose read and
    transcoding both succeed runs the transcoder, then makes a child of
    the caller's context with a timeout of 5 minutes (300000000000 ns),
    then calls the backend, once, under that child context, and cancels
    the child when it ends (while it is parked at the send the child is
    not yet cancelled).  No other event of the call involves the
    transcoder, the backend or a context: the child context is created
    after the transcoder has run and is handed to the backend call
    only. *)
Theorem backend_context_is_5_minute_child goos env s ctx i w :
  let o := run env (Process goos s ctx i) [] w in
  let t := List.filter is_call_event (events_since w (world_of o)) in
  let child := timerCtx ctx 300000000000 in
  let cmd := transcoder_cmd i w in
  let create := EvWithTimeout ctx 300000000000 in
  let backend := EvTranscribe (whisperClient s) child (backend_input env i w) in
  exec.ctx cmd = None
  ∧ (¬ read_ok i w → t = [])
  ∧ (read_ok i w → ¬ transcoding_ok env i w → t = [EvRun cmd])
  ∧ (read_ok i w → transcoding_ok env i w →
     (ended o → t = [EvRun cmd; create; backend; EvCancel child])
     ∧ (¬ ended o → t = [EvRun cmd; create; backend])
     ∧ transcribes (events_since w (world_of o))
       = [(whisperClient s, child, backend_input env i w)]).
Proof.
  intros o t child cmd create backend. split; [reflexivity|].
  subst o t child cmd create backend.
  process_cases goos env s ctx i w; unfold_call;
    change (5 * time.Minute)%Z with 300000000000%Z; simpl;
    split_and!; intros; simpl in *; try reflexivity; try congruence; tauto.
Qed.

Lemma backend_context_is_5_minute_child_witness :
  let i := Scenario.scriberInput "lecture.mp4" Scenario.reader in
  let o := run Scenario.env_ok (Process filepath.unix Scenario.scriber0 Background i) []
             Scenario.w_empty in
  let child := timerCtx Background 300000000000 in
  List.filter is_call_event (events_since Scenario.w_empty (world_of o))
  = [ EvRun (ffmpeg_cmd Scenario.media);
      EvWithTimeout Background 300000000000;
      EvTranscribe Scenario.cli child
        {| tai_Name := go "lecture.mp4"; tai_Language := go "en";
           tai_Format := go "srt"; tai_Data := Scenario.wav |};
      EvCancel child ].
Proof.
  intros i o child.
  destruct (backend_context_is_5_minute_child filepath.unix Scenario.env_ok
              Scenario.scriber0 Background i Scenario.w_empty)
    as (_ & _ & _ & Hok).
  destruct Hok as (Hend & _ & _); [reflexivity..|].
  apply Hend. exact I.
Defined.

Lemma New_returns env logger cli w :
  let ch := fresh (dom (w_chans w)) in
  run env (New logger cli) [] w =
    Returned {| logger := slog.WithGroup "scriber" logger;
                whisperClient := cli; resultsCh := ch |}
      {| w_trace := w_trace w ++ [EvMake ch 10];
         w_chans := <[ch := {| ch_cap := 10; ch_buf := []; ch_closed := false |}]>
                      (w_chans w);
         w_stderr := w_stderr w; w_data_calls := w_data_calls w |}.
Proof. reflexivity. Qed.

(** C6: [New] makes the delivery channel, a new and empty channel of
    capacity 10; [Collect] returns the receive-only view of that channel
    (it is a function of the scriber alone, so every call returns the
    same channel); every send of [Process] goes to the channel [Collect]
    returns; and neither [New] nor [Process] receives from a channel or
    closes one: every channel keeps its capacity and its closed flag, and
    what was in its buffer stays there, in front. *)
Theorem delivery_channel_capacity_and_view goos env l cli s ctx i w :
  (∃ s' w', run env (New l cli) [] w = Returned s' w'
     ∧ w_chans w !! resultsCh s' = None
     ∧ w_chans w' !! chan_of (Collect s')
       = Some {| ch_cap := 10; ch_buf := []; ch_closed := false |}
     ∧ (∀ ch, ch ≠ resultsCh s' → w_chans w' !! ch = w_chans w !! ch)
     ∧ chan_recvs (events_since w w') = []
     ∧ chan_closes (events_since w w') = [])
  ∧ Collect s = recv_only (resultsCh s)
  ∧ (let w' := world_of (run env (Process goos s ctx i) [] w) in
     let t := events_since w w' in
     (∀ ch o, (ch, o) ∈ sends t → ch = chan_of (Collect s))
     ∧ chan_recvs t = []
     ∧ chan_closes t = []
     ∧ ∀ ch c, w_chans w !! ch = Some c →
         ∃ c', w_chans w' !! ch = Some c'
               ∧ ch_cap c' = ch_cap c
               ∧ ch_closed c' = ch_closed c
               ∧ ch_buf c `prefix_of` ch_buf c').
Proof.
  split; [|split; [reflexivity|]].
  - eexists _, _. split; [apply New_returns|]. simpl.
    repeat split.
    + apply not_elem_of_dom, is_fresh.
    + by rewrite lookup_insert_eq.
    + intros ch Hch. by rewrite lookup_insert_ne.
    + by erewrite events_since_app by reflexivity.
    + by erewrite events_since_app by reflexivity.
  - intros w' t. subst w' t.
    process_cases goos env s ctx i w; unfold_call; simpl;
      (repeat split; [by intros ch o ?%elem_of_nil
                        || (intros ch o [= -> _]%list_elem_of_singleton; reflexivity)|..]);
      try reflexivity.
    all: intros ch c0 Hch; try (by exists c0).
    destruct (decide (ch = resultsCh s)) as [->|Hne].
    + rewrite lookup_insert_eq. eexists. split; [done|]. simplify_eq. simpl.
      repeat split; [done|]. by apply prefix_app_r.
    + rewrite lookup_insert_ne by done. by exists c0.
Qed.

Lemma delivery_channel_capacity_and_view_witness :
  let i := Scenario.scriberInput "lecture.mp4" Scenario.reader in
  let w' := world_of (run Scenario.env_ok
                        (Process filepath.unix Scenario.scriber0 Background i) []
                        Scenario.w_empty) in
  ∃ c', w_chans w' !! 0 = Some c'
        ∧ ch_cap c' = 10
        ∧ ch_closed c' = false
        ∧ [] `prefix_of` ch_buf c'.
Proof.
  intros i w'.
  destruct (delivery_channel_capacity_and_view filepath.unix Scenario.env_ok
              slog.Default Scenario.cli Scenario.scriber0 Background i
              Scenario.w_empty)
    as (_ & _ & _ & _ & _ & Hkeep).
  apply (Hkeep 0 {| ch_cap := 10; ch_buf := []; ch_closed := false |}).
  reflexivity.
Defined.

Lemma events_since_trace (w w' : World) (t : list Event) :
  w_trace w' = w_trace w ++ t → events_since w w' = t.
Proof. intros H. unfold events_since. by rewrite H, drop_app_length. Qed.

(** The deferred calls touch no channel and send nothing. *)
Lemma run_defers_chans ds w : w_chans (run_defers ds w) = w_chans w.
Proof. revert w. induction ds as [|[r|c] ds IH]; intros w; simpl; [done|..]; by rewrite IH. Qed.

Lemma run_defers_trace ds w :
  ∃ t, w_trace (run_defers ds w) = w_trace w ++ t ∧ sends t = [].
Proof.
  revert w. induction ds as [|d ds IH]; intros w; simpl.
  - exists []. by rewrite app_nil_r.
  - destruct (IH (run_deferred d w)) as (t & Ht & Hs). rewrite Ht.
    destruct d; simpl; rewrite <- app_assoc; eexists; (split; [reflexivity|]);
      simpl; exact Hs.
Qed.

(** Resuming at the send in a world where the channel has a free slot
    publishes the output and returns [nil]. *)
Lemma publish_published env s i o ds w :
  has_room (resultsCh s) w →
  ∃ w', run env (Process_publish s i o) ds w = Returned None w'
        ∧ published_by s o w w'.
Proof.
  intros (c & Hc & Hcl & Hroom). eexists. split; [by eapply publish_room|].
  split.
  - match goal with |- context [run_defers ds ?w0] =>
      destruct (run_defers_trace ds w0) as (t & Ht & Hs) end.
    simpl in Ht. rewrite <- app_assoc in Ht.
    rewrite (events_since_trace _ _ _ Ht). unfold sends in *.
    by rewrite omap_app, Hs.
  - exists c. split; [done|]. rewrite run_defers_chans. simpl.
    by rewrite lookup_insert_eq.
Qed.

(** A [nil] return of [Process] means that the output was published. *)
Lemma Process_nil_return_published goos env s ctx i w w' :
  run env (Process goos s ctx i) [] w = Returned None w' →
  published_by s (the_output goos env s ctx i w) w w'.
Proof.
  process_cases goos env s ctx i w; intros Hrun; try discriminate Hrun.
  injection Hrun as <-. split.
  - erewrite events_since_app by reflexivity. by unfold_call.
  - exists c. split; [done|]. simpl. by rewrite lookup_insert_eq.
Qed.

(** While [Process] is parked it has sent nothing and touched no channel. *)
Lemma Process_parked_sent_nothing goos env s ctx i w :
  read_ok i w → transcoding_ok env i w → transcription_ok env s ctx i w →
  w_chans w !! resultsCh s = None ∨ is_full (resultsCh s) w →
  run env (Process goos s ctx i) [] w =
    Blocked (Process_publish s i (the_output goos env s ctx i w))
            (pending_defers ctx i w) (send_world env s ctx i w)
  ∧ sends (events_since w (send_world env s ctx i w)) = []
  ∧ w_chans (send_world env s ctx i w) = w_chans w.
Proof.
  intros Hr Hp Hb Hch. rewrite Process_to_send by done. split; [|split].
  - destruct Hch as [Hnil|(c & Hc & Hcl & Hfull)].
    + by apply publish_nil.
    + by eapply publish_full.
  - unfold send_world. erewrite events_since_app by reflexivity. by unfold_call.
  - reflexivity.
Qed.

(** C1 (amended): when reading the input, transcoding and the backend
    call all succeed, [Process] attempts one send of an [Output] whose
    [Text] is exactly the backend's bytes and whose [Name] is the input
    name with its extension replaced by the dot and the output type
    whenever the first instance, in the name, of the text of its final
    extension is that final extension.  With a free slot in the open
    delivery channel the send completes: exactly that one [Output] is
    published and [Process] returns [nil].  With a full buffer [Process]
    is parked at the send, has published nothing, and publishes that same
    [Output] and returns [nil] once it is resumed with a free slot.  In
    every case a [nil] return implies that the [Output] was published. *)
Theorem Process_publishes_once_on_success goos env s ctx i w :
  read_ok i w → transcoding_ok env i w → transcription_ok env s ctx i w →
  let o := the_output goos env s ctx i w in
  let ds := pending_defers ctx i w in
  out_Text o = (env_transcribe env (whisperClient s) (timerCtx ctx 300000000000)
                  (backend_input env i w)).1
  ∧ (strings.Index (Name i) (filepath.Ext goos (Name i))
       = Some (length (Name i) - length (filepath.Ext goos (Name i))) →
     out_Name o = ext_replaced goos (Name i) (OutputType i))
  ∧ (has_room (resultsCh s) w →
     ∃ w', run env (Process goos s ctx i) [] w = Returned None w'
           ∧ published_by s o w w')
  ∧ (is_full (resultsCh s) w →
     ∃ w1, run env (Process goos s ctx i) [] w = Blocked (Process_publish s i o) ds w1
           ∧ sends (events_since w w1) = []
           ∧ w_chans w1 = w_chans w
           ∧ ∀ w2, has_room (resultsCh s) w2 →
               ∃ w3, run env (Process_publish s i o) ds w2 = Returned None w3
                     ∧ published_by s o w2 w3)
  ∧ (∀ w', run env (Process goos s ctx i) [] w = Returned None w' →
           published_by s o w w').
Proof.
  intros Hr Hp Hb o ds. split; [reflexivity|]. split; [|split; [|split]].
  - intros Hi. by apply output_name_ext_replaced.
  - intros Hroom.
    destruct (publish_published env s i o ds (send_world env s ctx i w) Hroom)
      as (w' & Hrun & _).
    exists w'. rewrite Process_to_send by done. split; [done|].
    apply Process_nil_return_published. by rewrite Process_to_send.
  - intros Hfull. eexists.
    destruct (Process_parked_sent_nothing goos env s ctx i w Hr Hp Hb (or_intror Hfull))
      as (Hrun & Hsends & Hch).
    split; [exact Hrun|]. repeat split; [done..|].
    intros w2 Hroom. by apply publish_published.
  - intros w'. apply Process_nil_return_published.
Qed.

Lemma Process_publishes_once_on_success_witness :
  let i := Scenario.scriberInput "lecture.mp4" Scenario.reader in
  let o := {| out_Name := go "lecture.srt"; out_Text := Scenario.srt |} in
  ∃ w', run Scenario.env_ok (Process filepath.unix Scenario.scriber0 Background i) []
            Scenario.w_empty = Returned None w'
        ∧ published_by Scenario.scriber0 o Scenario.w_empty w'.
Proof.
  intros i o.
  destruct (Process_publishes_once_on_success filepath.unix Scenario.env_ok
              Scenario.scriber0 Background i Scenario.w_empty)
    as (_ & _ & Hroom & _); [reflexivity..|].
  apply Hroom. eexists. split; [reflexivity|]. split; [reflexivity|]. simpl. lia.
Defined.

(** C1 as stated fails in two ways.  With ten outputs waiting in the
    delivery channel, a call on which everything succeeds is parked at the
    send and publishes nothing; and for the name "a.mp4.backup.mp4" the
    published name is "a.srt.backup.mp4", not the name with its extension
    replaced. *)
Lemma Process_publishes_counterexample :
  (let i := Scenario.scriberInput "lecture.mp4" Scenario.reader in
   read_ok i Scenario.w_full
   ∧ transcoding_ok Scenario.env_ok i Scenario.w_full
   ∧ transcription_ok Scenario.env_ok Scenario.scriber0 Background i Scenario.w_full
   ∧ ∃ p ds w1,
       run Scenario.env_ok (Process filepath.unix Scenario.scriber0 Background i) []
           Scenario.w_full = Blocked p ds w1
       ∧ sends (events_since Scenario.w_full w1) = []
       ∧ w_chans w1 = w_chans Scenario.w_full)
  ∧ (let i := Scenario.scriberInput "a.mp4.backup.mp4" Scenario.reader in
     ∃ w', run Scenario.env_ok (Process filepath.unix Scenario.scriber0 Background i) []
               Scenario.w_empty = Returned None w'
           ∧ sends (events_since Scenario.w_empty w')
             = [(0, {| out_Name := go "a.srt.backup.mp4"; out_Text := Scenario.srt |})]
           ∧ ext_replaced filepath.unix (Name i) (OutputType i) = go "a.mp4.backup.srt"
           ∧ go "a.srt.backup.mp4" ≠ go "a.mp4.backup.srt").
Proof.
  split.
  - intros i. do 3 (split; [reflexivity|]).
    eexists _, _, _. split; [vm_compute; reflexivity|]. split; reflexivity.
  - intros i. eexists. split; [vm_compute; reflexivity|].
    split; [reflexivity|]. split; [reflexivity|]. discriminate.
Qed.

(** C2 fails on the code: when [io.ReadAll] returns an error, [Process]
    returns at line 55, before the [defer] of line 57 is reached, and the
    reader is never closed.  Here the application's input type is given a
    reader whose read fails. *)
Theorem Process_read_failure_leaves_reader_open :
  let i := Scenario.scriberInput "lecture.mp4" Scenario.broken_reader in
  ∃ w', run Scenario.env_ok (Process filepath.unix Scenario.scriber0 Background i) []
            Scenario.w_empty
        = Returned (Some (wrapError "reading input: " (errors_New "unexpected EOF"))) w'
        ∧ data_calls (events_since Scenario.w_empty w') = [(0, 1)]
        ∧ read_alls (events_since Scenario.w_empty w') = [1]
        ∧ closes (events_since Scenario.w_empty w') = [].
Proof.
  intros i. eexists. split; [vm_compute; reflexivity|]. by repeat split.
Qed.

(** A name without extension: the empty extension is found at position 0,
    so the dot and the output type are put in front of the name. *)
Lemma output_name_no_extension goos (i : Input) :
  filepath.Ext goos (Name i) = [] →
  output_name goos i = ("."%char :: OutputType i) ++ Name i.
Proof.
  intros He. unfold output_name. rewrite Replace_1, He, Index_nil. simpl.
  by rewrite drop_0.
Qed.

(** C3 fails on the code: for the input name "clip" and the output type
    "srt", [filepath.Ext] is empty, [strings.Replace] inserts ".srt" at
    the front, and the published name is ".srtclip", not "clip.srt". *)
Theorem Process_clip_publishes_srtclip :
  let i := Scenario.scriberInput "clip" Scenario.reader in
  filepath.Ext filepath.unix (Name i) = []
  ∧ output_name filepath.unix i = go ".srtclip"
  ∧ ∃ w', run Scenario.env_ok (Process filepath.unix Scenario.scriber0 Background i) []
              Scenario.w_empty = Returned None w'
          ∧ sends (events_since Scenario.w_empty w')
            = [(0, {| out_Name := go ".srtclip"; out_Text := Scenario.srt |})]
          ∧ go ".srtclip" ≠ go "clip.srt".
Proof.
  intros i. split; [reflexivity|]. split; [reflexivity|].
  eexists. split; [vm_compute; reflexivity|]. split; [reflexivity|discriminate].
Qed.

(** C4: when the input was read and the transcoder cannot be started or
    exits with a status other than 0, [Process] returns the error of
    [cmd.Run()] wrapped as "ffmpeg failed: ...", the backend is not
    called, nothing is sent, and no channel has changed. *)
Theorem transcoding_failure_aborts goos env s ctx i w :
  read_ok i w → transcoding_failed env i w →
  ∃ e w',
    exec.Run_err (transcoder_run env i w) = Some e
    ∧ run env (Process goos s ctx i) [] w
      = Returned (Some (wrapError "ffmpeg failed: " e)) w'
    ∧ Unwrap (wrapError "ffmpeg failed: " e) = Some e
    ∧ transcribes (events_since w w') = []
    ∧ sends (events_since w w') = []
    ∧ w_chans w' = w_chans w.
Proof.
  intros Hr Hfail. apply Run_err_failed in Hfail.
  destruct (exec.Run_err (transcoder_run env i w)) as [e|] eqn:He; [|done].
  eexists e, _. split; [done|]. split; [by apply Process_ffmpeg_failure|].
  split; [done|]. erewrite events_since_app by reflexivity.
  by unfold_call.
Qed.

Lemma transcoding_failure_aborts_witness :
  let i := Scenario.scriberInput "lecture.mp4" Scenario.reader in
  ∃ e w',
    exec.Run_err (transcoder_run Scenario.env_ffmpeg_fails i Scenario.w_empty) = Some e
    ∧ run Scenario.env_ffmpeg_fails
          (Process filepath.unix Scenario.scriber0 Background i) [] Scenario.w_empty
      = Returned (Some (wrapError "ffmpeg failed: " e)) w'
    ∧ Unwrap (wrapError "ffmpeg failed: " e) = Some e
    ∧ transcribes (events_since Scenario.w_empty w') = []
    ∧ sends (events_since Scenario.w_empty w') = []
    ∧ w_chans w' = w_chans Scenario.w_empty.
Proof.
  intros i.
  apply (transcoding_failure_aborts filepath.unix Scenario.env_ffmpeg_fails
           Scenario.scriber0 Background i Scenario.w_empty).
  - reflexivity.
  - right. simpl. lia.
Defined.




(** C9: a call of [Process] whose input is read without error and which
    gets as far as the send (the success path) has called [Data()] twice
    and has read the reader of the first call to its end; the only reader
    it ever closes is the one the second call returned, and it has closed
    that one exactly once when it returns.  So when the two calls return
    different readers, the reader that was read is not closed.  A call
    whose read fails has called [Data()] once and closes nothing. *)
Theorem Data_called_twice_second_reader_closed goos env s ctx i w :
  let o := run env (Process goos s ctx i) [] w in
  let t := events_since w (world_of o) in
  let r0 := first_reader i w in
  let r1 := second_reader i w in
  (read_ok i w → transcoding_ok env i w → transcription_ok env s ctx i w →
   data_calls t = [(w_data_calls w, rc_id r0); (S (w_data_calls w), rc_id r1)]
   ∧ read_alls t = [rc_id r0]
   ∧ (closes t = [] ∨ closes t = [rc_id r1])
   ∧ (∀ a w', o = Returned a w' → a = None ∧ closes t = [rc_id r1])
   ∧ (has_room (resultsCh s) w → ∃ w', o = Returned None w')
   ∧ (rc_id r0 ≠ rc_id r1 → rc_id r0 ∉ closes t))
  ∧ (rc_err r0 ≠ None →
     (∃ e w', o = Returned (Some (wrapError "reading input: " e)) w')
     ∧ data_calls t = [(w_data_calls w, rc_id r0)]
     ∧ closes t = []).
Proof.
  intros o t r0 r1. subst o t r0 r1. split.
  - intros Hr Hp Hb.
    process_cases goos env s ctx i w; unfold_call; try congruence; simpl.
    + do 2 (split; [done|]). split; [by right|]. split; [by intros ? ? [= <- <-]|].
      split; [by eexists|]. intros Hne. by rewrite list_elem_of_singleton.
    + do 2 (split; [done|]). split; [by left|]. split; [done|].
      split; [|intros _; apply not_elem_of_nil].
      intros (c & Hc & Hcl & Hroom).
      match goal with
      | H : _ ∨ is_full _ _ |- _ => destruct H as [H|(c' & Hc' & _ & Hfull)]
      end; simplify_eq; lia.
    + do 2 (split; [done|]). split; [by right|]. split; [done|].
      split; [|intros Hne; by rewrite list_elem_of_singleton].
      intros (c' & Hc' & Hcl & _). congruence.
  - intros Hr.
    process_cases goos env s ctx i w; unfold_call; try congruence; simpl.
    split; [by eexists _, _|done].
Qed.

Lemma Data_called_twice_second_reader_closed_witness :
  let i := Scenario.fresh_input "lecture.mp4" in
  let o := run Scenario.env_ok (Process filepath.unix Scenario.scriber0 Background i) []
             Scenario.w_empty in
  let t := events_since Scenario.w_empty (world_of o) in
  data_calls t = [(0, 0); (1, 1)]
  ∧ read_alls t = [0]
  ∧ closes t = [1]
  ∧ (0 ∉ closes t)
  ∧ (let i' := Scenario.scriberInput "lecture.mp4" Scenario.broken_reader in
     let t' := events_since Scenario.w_empty
                 (world_of (run Scenario.env_ok
                              (Process filepath.unix Scenario.scriber0 Background i') []
                              Scenario.w_empty)) in
     data_calls t' = [(0, 1)] ∧ closes t' = []).
Proof.
  intros i o t.
  destruct (Data_called_twice_second_reader_closed filepath.unix Scenario.env_ok
              Scenario.scriber0 Background i Scenario.w_empty)
    as [Hok _].
  destruct Hok as (Hd & Hread & _ & Hret & Hroom & Hfresh); [reflexivity..|].
  split; [exact Hd|]. split; [exact Hread|].
  destruct Hroom as [w' Hw'].
  { eexists. split; [reflexivity|]. split; [reflexivity|]. simpl. lia. }
  split; [exact (proj2 (Hret _ _ Hw'))|]. split; [apply Hfresh; simpl; lia|].
  intros i' t'.
  destruct (Data_called_twice_second_reader_closed filepath.unix Scenario.env_ok
              Scenario.scriber0 Background i' Scenario.w_empty)
    as [_ Hfail].
  destruct Hfail as (_ & Hd' & Hc'); [discriminate|]. split; [exact Hd'|exact Hc'].
Defined.

(** ** [main] *)

(** With the credential in the environment, [main] makes the scriber, with
    its channel and with the key handed to the backend client, and runs
    the application. *)
Lemma main_with_key env w key :
  env_environ env !! "OPENAI_API_KEY" = Some key → key ≠ [] →
  ∃ a w', run env main [] w = Returned () w'
          ∧ app_runs (events_since w w') = [a]
          ∧ whisperclient.apiKey (whisperClient (app_scriberSvc a)) = key.
Proof.
  intros Hk Hne. unfold_prog. simpl. rewrite Hk. simpl.
  rewrite bool_decide_eq_false_2 by done. simpl.
  eexists _, _. split; [reflexivity|]. split.
  - erewrite events_since_trace; [|simpl; rewrite <- !app_assoc; reflexivity].
    reflexivity.
  - reflexivity.
Qed.

(** C8: when [OPENAI_API_KEY] is not in the environment, [main] logs the
    error and the process exits with status 1, which is not 0.  Nothing
    else has happened by then: no scriber and no channel was made and the
    application was never run, so no file was handled and no call of
    [Process] exists that could report the missing credential. *)
Theorem main_exits_without_credential env w :
  env_environ env !! "OPENAI_API_KEY" = None →
  ∃ w', run env main [] w = Exited 1 w'
        ∧ (1 ≠ 0)%Z
        ∧ events_since w w'
          = [ EvGetenv "OPENAI_API_KEY";
              EvLog slog.Default slog.LevelError "OPENAI_API_KEY is required" [];
              EvExit 1 ]
        ∧ app_runs (events_since w w') = []
        ∧ w_chans w' = w_chans w.
Proof.
  intros Hk. unfold_prog. simpl. rewrite Hk. simpl.
  eexists. split; [reflexivity|]. split; [done|].
  erewrite events_since_trace; [|simpl; rewrite <- !app_assoc; reflexivity].
  by repeat split.
Qed.

Lemma main_exits_without_credential_witness :
  ∃ w', run Scenario.env_no_key main [] Scenario.w_start = Exited 1 w'
        ∧ (1 ≠ 0)%Z
        ∧ events_since Scenario.w_start w'
          = [ EvGetenv "OPENAI_API_KEY";
              EvLog slog.Default slog.LevelError "OPENAI_API_KEY is required" [];
              EvExit 1 ]
        ∧ app_runs (events_since Scenario.w_start w') = []
        ∧ w_chans w' = w_chans Scenario.w_start.
Proof.
  apply (main_exits_without_credential Scenario.env_no_key Scenario.w_start).
  reflexivity.
Defined.

(** An empty value is treated like a missing one: [os.Getenv] returns the
    empty string in both cases. *)
Lemma main_exits_with_empty_credential env w :
  env_environ env !! "OPENAI_API_KEY" = Some [] →
  ∃ w', run env main [] w = Exited 1 w' ∧ app_runs (events_since w w') = [].
Proof.
  intros Hk. unfold_prog. simpl. rewrite Hk. simpl.
  eexists. split; [reflexivity|].
  erewrite events_since_trace; [|simpl; rewrite <- !app_assoc; reflexivity].
  reflexivity.
Qed.

(** * Further properties of the scriber package *)

(** X1: a call of [Process] that returns an error has published nothing
    and has left every channel as it was, and the error is one of three
    wrappers around its cause: "reading input: " around the error of
    [io.ReadAll], "ffmpeg failed: " around the error of [cmd.Run()], or
    "transcription failed: " around the error of the backend. *)
Theorem Process_error_never_publishes goos env s ctx i w err w' :
  run env (Process goos s ctx i) [] w = Returned (Some err) w' →
  sends (events_since w w') = []
  ∧ w_chans w' = w_chans w
  ∧ ∃ cause,
      Unwrap err = Some cause
      ∧ ((err = wrapError "reading input: " cause
          ∧ rc_err (first_reader i w) = Some cause)
         ∨ (err = wrapError "ffmpeg failed: " cause
            ∧ exec.Run_err (transcoder_run env i w) = Some cause)
         ∨ (err = wrapError "transcription failed: " cause
            ∧ (backend_result env s ctx i w).2 = Some cause)).
Proof.
  process_cases goos env s ctx i w; intros Hrun; try discriminate Hrun;
    injection Hrun as <- <-; simpl;
    (erewrite events_since_app by reflexivity);
    (split; [by unfold_call|]); (split; [reflexivity|]);
    eexists; (split; [reflexivity|]); eauto.
Qed.

Lemma Process_error_never_publishes_witness :
  let i := Scenario.scriberInput "lecture.mp4" Scenario.broken_reader in
  ∃ w', run Scenario.env_ok (Process filepath.unix Scenario.scriber0 Background i) []
            Scenario.w_empty
        = Returned (Some (wrapError "reading input: " (errors_New "unexpected EOF"))) w'
        ∧ sends (events_since Scenario.w_empty w') = []
        ∧ w_chans w' = w_chans Scenario.w_empty.
Proof.
  intros i. eexists. split; [vm_compute; reflexivity|].
  destruct (Process_error_never_publishes filepath.unix Scenario.env_ok
              Scenario.scriber0 Background i Scenario.w_empty _ _ eq_refl)
    as (Hs & Hc & _).
  split; [exact Hs|exact Hc].
Defined.





(** X4: whenever the input was read and transcoded, the backend is called
    exactly once, under the 5-minute child context, with the input's
    name, language and output type and with exactly the bytes the
    transcoder wrote to its standard output when given the bytes read
    from the input; whatever the channel does afterwards. *)
Theorem backend_receives_transcoder_output goos env s ctx i w :
  read_ok i w → transcoding_ok env i w →
  let t := events_since w (world_of (run env (Process goos s ctx i) [] w)) in
  transcribes t
  = [(whisperClient s, timerCtx ctx 300000000000,
      {| tai_Name := Name i;
         tai_Language := Language i;
         tai_Format := OutputType i;
         tai_Data := exec.stdout
                       (env_exec env
                          {| exec.Args := go "ffmpeg" :: ffmpeg_args;
                             exec.Stdin := Some (rc_data (first_reader i w));
                             exec.Stdout := exec.buffer;
                             exec.Stderr := exec.os_Stderr;
                             exec.ctx := None |}) |})].
Proof.
  intros Hr Hp t. subst t.
  process_cases goos env s ctx i w; unfold_call; try congruence; reflexivity.
Qed.

Lemma backend_receives_transcoder_output_witness :
  let i := Scenario.scriberInput "lecture.mp4" Scenario.reader in
  transcribes
    (events_since Scenario.w_full
       (world_of (run Scenario.env_ok
                    (Process filepath.unix Scenario.scriber0 Background i) []
                    Scenario.w_full)))
  = [(Scenario.cli, timerCtx Background 300000000000,
      {| tai_Name := go "lecture.mp4"; tai_Language := go "en";
         tai_Format := go "srt"; tai_Data := Scenario.wav |})].
Proof.
  intros i.
  apply (backend_receives_transcoder_output filepath.unix Scenario.env_ok
           Scenario.scriber0 Background i Scenario.w_full); reflexivity.
Defined.

(** X5: when the delivery channel has been closed by its owner, a call on
    which reading, transcoding and the backend all succeed panics with
    "send on closed channel".  Nothing is sent and no channel changes, and
    the deferred calls still run: the context is cancelled and the reader
    of the second [Data()] call is closed. *)
Theorem send_on_closed_channel_panics goos env s ctx i w c :
  read_ok i w → transcoding_ok env i w → transcription_ok env s ctx i w →
  w_chans w !! resultsCh s = Some c → ch_closed c = true →
  ∃ w', run env (Process goos s ctx i) [] w = Panicked "send on closed channel" w'
        ∧ sends (events_since w w') = []
        ∧ w_chans w' = w_chans w
        ∧ cancelled (events_since w w') = [timerCtx ctx 300000000000]
        ∧ closes (events_since w w') = [rc_id (second_reader i w)].
Proof.
  intros Hr Hp Hb Hc Hcl. eexists. split.
  - rewrite Process_to_send by done. by eapply publish_closed.
  - erewrite events_since_trace; [|simpl; rewrite <- !app_assoc; reflexivity].
    by unfold_call.
Qed.

Lemma send_on_closed_channel_panics_witness :
  let i := Scenario.scriberInput "lecture.mp4" Scenario.reader in
  let w := {| w_trace := [];
              w_chans := {[ 0 := {| ch_cap := 10; ch_buf := []; ch_closed := true |} ]};
              w_stderr := []; w_data_calls := 0 |} in
  ∃ w', run Scenario.env_ok (Process filepath.unix Scenario.scriber0 Background i) [] w
        = Panicked "send on closed channel" w'
        ∧ sends (events_since w w') = []
        ∧ w_chans w' = w_chans w
        ∧ cancelled (events_since w w') = [timerCtx Background 300000000000]
        ∧ closes (events_since w w') = [1].
Proof.
  intros i w.
  apply (send_on_closed_channel_panics filepath.unix Scenario.env_ok
           Scenario.scriber0 Background i w
           {| ch_cap := 10; ch_buf := []; ch_closed := true |}); reflexivity.
Defined.

(** X6: a call of [Process] changes no channel but the delivery channel
    of its own scriber. *)
Theorem Process_touches_only_its_channel goos env s ctx i w ch :
  ch ≠ resultsCh s →
  w_chans (world_of (run env (Process goos s ctx i) [] w)) !! ch = w_chans w !! ch.
Proof.
  intros Hne.
  process_cases goos env s ctx i w; simpl; try reflexivity.
  by rewrite lookup_insert_ne.
Qed.

Lemma Process_touches_only_its_channel_witness :
  let i := Scenario.scriberInput "lecture.mp4" Scenario.reader in
  let other := {| ch_cap := 10; ch_buf := [Scenario.earlier]; ch_closed := false |} in
  let w := {| w_trace := [];
              w_chans := <[ 1 := other ]> (w_chans Scenario.w_empty);
              w_stderr := []; w_data_calls := 0 |} in
  w_chans (world_of (run Scenario.env_ok
                       (Process filepath.unix Scenario.scriber0 Background i) [] w))
    !! 1 = Some other.
Proof.
  intros i other w.
  rewrite (Process_touches_only_its_channel filepath.unix Scenario.env_ok
             Scenario.scriber0 Background i w 1); [reflexivity|].
  simpl. lia.
Defined.



(** X8: outputs leave the delivery channel in the order in which they
    were published.  After two calls of [Process] on the same scriber
    that both returned [nil], the buffer holds what it held before,
    followed by the output of the first call and then that of the second;
    starting from an empty buffer, a consumer receives the first output,
    then the second, and then finds the channel empty. *)
Theorem outputs_received_in_publish_order goos env s ctx i1 i2 w w1 w2 c :
  w_chans w !! resultsCh s = Some c →
  run env (Process goos s ctx i1) [] w = Returned None w1 →
  run env (Process goos s ctx i2) [] w1 = Returned None w2 →
  let o1 := the_output goos env s ctx i1 w in
  let o2 := the_output goos env s ctx i2 w1 in
  w_chans w2 !! resultsCh s
  = Some {| ch_cap := ch_cap c; ch_buf := ch_buf c ++ [o1; o2]; ch_closed := false |}
  ∧ (ch_buf c = [] →
     ∃ w3 w4, recv (resultsCh s) w2 = Some (o1, w3)
              ∧ recv (resultsCh s) w3 = Some (o2, w4)
              ∧ recv (resultsCh s) w4 = None).
Proof.
  intros Hc H1 H2 o1 o2.
  apply Process_nil_return_published in H1 as (_ & c0 & Hc0 & Hw1).
  apply Process_nil_return_published in H2 as (_ & c1 & Hc1 & Hw2).
  fold o1 in Hw1. fold o2 in Hw2.
  rewrite Hc in Hc0. injection Hc0 as <-.
  rewrite Hw1 in Hc1. injection Hc1 as <-. simpl in Hw2.
  rewrite <- app_assoc in Hw2. simpl in Hw2. split; [done|].
  intros Hnil. rewrite Hnil in Hw2. simpl in Hw2.
  eexists _, _. split; [|split].
  - unfold recv. rewrite Hw2. simpl. reflexivity.
  - unfold recv. simpl. rewrite lookup_insert_eq. simpl. reflexivity.
  - unfold recv. simpl. rewrite lookup_insert_eq. reflexivity.
Qed.

Lemma outputs_received_in_publish_order_witness :
  let i1 := Scenario.scriberInput "one.mp4" Scenario.reader in
  let i2 := Scenario.scriberInput "two.mp3" Scenario.reader in
  let o1 := {| out_Name := go "one.srt"; out_Text := Scenario.srt |} in
  let o2 := {| out_Name := go "two.srt"; out_Text := Scenario.srt |} in
  let w1 := world_of (run Scenario.env_ok
                        (Process filepath.unix Scenario.scriber0 Background i1) []
                        Scenario.w_empty) in
  let w2 := world_of (run Scenario.env_ok
                        (Process filepath.unix Scenario.scriber0 Background i2) []
                        w1) in
  ∃ w3 w4, recv 0 w2 = Some (o1, w3)
           ∧ recv 0 w3 = Some (o2, w4)
           ∧ recv 0 w4 = None.
Proof.
  intros i1 i2 o1 o2 w1 w2.
  destruct (outputs_received_in_publish_order filepath.unix Scenario.env_ok
              Scenario.scriber0 Background i1 i2 Scenario.w_empty w1 w2
              {| ch_cap := 10; ch_buf := []; ch_closed := false |})
    as (_ & Hrecv).
  - reflexivity.
  - vm_compute. reflexivity.
  - vm_compute. reflexivity.
  - exact (Hrecv eq_refl).
Defined.

(** X9: a call of [Process] that is parked at the send because the open
    delivery channel holds as many outputs as its capacity goes through as
    soon as the consumer has received one of them: resumed in that world
    it publishes its output behind what is left in the buffer and returns
    [nil]. *)
Theorem parked_call_resumes_after_recv goos env s ctx i w c o0 w2 :
  read_ok i w → transcoding_ok env i w → transcription_ok env s ctx i w →
  w_chans w !! resultsCh s = Some c → ch_closed c = false →
  length (ch_buf c) = ch_cap c →
  let o := the_output goos env s ctx i w in
  let ds := pending_defers ctx i w in
  let w1 := send_world env s ctx i w in
  recv (resultsCh s) w1 = Some (o0, w2) →
  run env (Process goos s ctx i) [] w = Blocked (Process_publish s i o) ds w1
  ∧ ∃ rest w3,
      ch_buf c = o0 :: rest
      ∧ run env (Process_publish s i o) ds w2 = Returned None w3
      ∧ sends (events_since w2 w3) = [(resultsCh s, o)]
      ∧ w_chans w3 !! resultsCh s
        = Some {| ch_cap := ch_cap c; ch_buf := rest ++ [o]; ch_closed := false |}.
Proof.
  intros Hr Hp Hb Hc Hcl Hlen o ds w1 Hrecv.
  assert (is_full (resultsCh s) w) as Hfull.
  { exists c. repeat split; [done..|lia]. }
  destruct (Process_parked_sent_nothing goos env s ctx i w Hr Hp Hb (or_intror Hfull))
    as (Hrun & _ & _).
  split; [exact Hrun|].
  unfold recv in Hrecv. simpl in Hrecv. rewrite Hc in Hrecv.
  destruct (ch_buf c) as [|o0' rest] eqn:Hbuf; [discriminate Hrecv|].
  injection Hrecv as -> <-. exists rest.
  assert (has_room (resultsCh s)
            (set_chan (resultsCh s)
               {| ch_cap := ch_cap c; ch_buf := rest; ch_closed := ch_closed c |}
               (emit (EvRecv (resultsCh s) o0) w1))) as Hroom.
  { eexists. simpl. rewrite lookup_insert_eq. split; [reflexivity|].
    simpl in *. split; [done|lia]. }
  destruct (publish_published env s i o ds _ Hroom) as (w3 & Hrun3 & Hs3 & c3 & Hc3 & Hw3).
  exists w3. split; [done|]. split; [exact Hrun3|].
  split; [exact Hs3|]. simpl in Hc3. rewrite lookup_insert_eq in Hc3.
  injection Hc3 as <-. exact Hw3.
Qed.

Lemma parked_call_resumes_after_recv_witness :
  let i := Scenario.scriberInput "lecture.mp4" Scenario.reader in
  let o := {| out_Name := go "lecture.srt"; out_Text := Scenario.srt |} in
  let w1 := send_world Scenario.env_ok Scenario.scriber0 Background i Scenario.w_full in
  let ds := pending_defers Background i Scenario.w_full in
  ∃ w2 w3,
    run Scenario.env_ok (Process filepath.unix Scenario.scriber0 Background i) []
        Scenario.w_full = Blocked (Process_publish Scenario.scriber0 i o) ds w1
    ∧ recv 0 w1 = Some (Scenario.earlier, w2)
    ∧ run Scenario.env_ok (Process_publish Scenario.scriber0 i o) ds w2
      = Returned None w3
    ∧ w_chans w3 !! 0
      = Some {| ch_cap := 10; ch_buf := replicate 9 Scenario.earlier ++ [o];
                ch_closed := false |}.
Proof.
  intros i o w1 ds.
  destruct (recv 0 w1) as [[o0 w2]|] eqn:Hrecv; [|discriminate Hrecv].
  assert (o0 = Scenario.earlier) as -> by (injection Hrecv as <- _; reflexivity).
  destruct (parked_call_resumes_after_recv filepath.unix Scenario.env_ok
              Scenario.scriber0 Background i Scenario.w_full
              {| ch_cap := 10; ch_buf := replicate 10 Scenario.earlier;
                 ch_closed := false |} Scenario.earlier w2)
    as (Hrun & rest & w3 & Hbuf & Hrun3 & _ & Hw3);
    [reflexivity..| exact Hrecv |].
  exists w2, w3. split; [exact Hrun|]. split; [reflexivity|].
  split; [exact Hrun3|].
  simpl in Hbuf. injection Hbuf as <-. exact Hw3.
Defined.

(** X10: every call of [New] makes a channel of its own.  Two scribers
    made one after the other have different delivery channels, each of
    capacity 10, empty and open, and making the second leaves the channel
    of the first as it was. *)
Theorem New_makes_distinct_channels env l1 cli1 l2 cli2 w :
  ∃ s1 w1 s2 w2,
    run env (New l1 cli1) [] w = Returned s1 w1
    ∧ run env (New l2 cli2) [] w1 = Returned s2 w2
    ∧ chan_of (Collect s1) ≠ chan_of (Collect s2)
    ∧ w_chans w2 !! chan_of (Collect s1) = w_chans w1 !! chan_of (Collect s1)
    ∧ w_chans w2 !! chan_of (Collect s1)
      = Some {| ch_cap := 10; ch_buf := []; ch_closed := false |}
    ∧ w_chans w2 !! chan_of (Collect s2)
      = Some {| ch_cap := 10; ch_buf := []; ch_closed := false |}.
Proof.
  eexists _, _, _, _. split; [apply New_returns|]. split; [apply New_returns|].
  simpl.
  set (ch1 := fresh (dom (w_chans w))).
  set (c0 := {| ch_cap := 10; ch_buf := []; ch_closed := false |}).
  set (ch2 := fresh (dom (<[ch1:=c0]> (w_chans w)))).
  assert (ch1 ≠ ch2) as Hne.
  { intros Heq. apply (is_fresh (dom (<[ch1:=c0]> (w_chans w)))). fold ch2.
    rewrite <- Heq. rewrite dom_insert_L. set_solver. }
  split; [done|]. rewrite lookup_insert_ne by done. rewrite !lookup_insert_eq. done.
Qed.

(** X11: [main] exits with status 1, before it has made a scriber or run
    the application, exactly when [OPENAI_API_KEY] is missing or empty.
    With any other value it returns after running the application once,
    with a scriber that logs under the group "scriber", whose backend
    client carries that key and the model "whisper-1", and whose delivery
    channel is new, of capacity 10, empty and open. *)
Theorem main_runs_app_iff_credential env w :
  let key := default [] (env_environ env !! "OPENAI_API_KEY") in
  (key = [] →
   ∃ w', run env main [] w = Exited 1 w'
         ∧ app_runs (events_since w w') = []
         ∧ w_chans w' = w_chans w)
  ∧ (key ≠ [] →
     ∃ a w', run env main [] w = Returned () w'
             ∧ app_runs (events_since w w') = [a]
             ∧ whisperclient.apiKey (whisperClient (app_scriberSvc a)) = key
             ∧ whisperclient.model (whisperClient (app_scriberSvc a)) = go "whisper-1"
             ∧ slog.groups (logger (app_scriberSvc a)) = ["scriber"]%string
             ∧ slog.groups (app_logger a) = ["app"]%string
             ∧ w_chans w !! resultsCh (app_scriberSvc a) = None
             ∧ w_chans w' !! chan_of (Collect (app_scriberSvc a))
               = Some {| ch_cap := 10; ch_buf := []; ch_closed := false |}).
Proof.
  intros key. subst key. split; intros Hk.
  - unfold_prog. simpl. rewrite Hk. simpl.
    eexists. split; [reflexivity|].
    erewrite events_since_trace; [|simpl; rewrite <- !app_assoc; reflexivity].
    by split.
  - unfold_prog. simpl. rewrite bool_decide_eq_false_2 by done. simpl.
    eexists _, _. split; [reflexivity|]. simpl. split.
    { erewrite events_since_trace; [|simpl; rewrite <- !app_assoc; reflexivity].
      reflexivity. }
    simpl. do 4 (split; [reflexivity|]). split.
    + apply not_elem_of_dom, is_fresh.
    + by rewrite lookup_insert_eq.
Qed.

Lemma main_runs_app_iff_credential_witness :
  (∃ w', run Scenario.env_no_key main [] Scenario.w_start = Exited 1 w'
         ∧ app_runs (events_since Scenario.w_start w') = []
         ∧ w_chans w' = w_chans Scenario.w_start)
  ∧ (∃ a w', run Scenario.env_ok main [] Scenario.w_start = Returned () w'
             ∧ app_runs (events_since Scenario.w_start w') = [a]
             ∧ whisperclient.apiKey (whisperClient (app_scriberSvc a)) = go "sk-test").
Proof.
  split.
  - destruct (main_runs_app_iff_credential Scenario.env_no_key Scenario.w_start)
      as [Hexit _].
    apply Hexit. reflexivity.
  - destruct (main_runs_app_iff_credential Scenario.env_ok Scenario.w_start)
      as [_ Hrun].
    destruct Hrun as (a & w' & H1 & H2 & H3 & _); [discriminate|].
    exists a, w'. split; [exact H1|]. split; [exact H2|exact H3].
Defined.

(** [filepath.Ext] of a path that ends with a dot followed by text
    without dot and without separator is that dot and that text. *)
Lemma Ext_app_dot goos (pre ot : gostring) :
  "."%char ∉ ot → (∀ c, c ∈ ot → filepath.IsPathSeparator goos c = false) →
  filepath.Ext goos (pre ++ "."%char :: ot) = "."%char :: ot.
Proof.
  intros Hdot Hsep. unfold filepath.Ext.
  assert (∀ k, k ≤ length ot →
            filepath.ext_loop goos (pre ++ "."%char :: ot) (length pre + 1 + k)
            = "."%char :: ot) as Hloop.
  { induction k as [|k IH]; intros Hk.
    - rewrite Nat.add_0_r, Nat.add_1_r. simpl.
      rewrite list_lookup_middle by done.
      replace (filepath.IsPathSeparator goos ".") with false by (by destruct goos).
      rewrite bool_decide_eq_true_2 by done. by rewrite drop_app_length.
    - replace (length pre + 1 + S k) with (S (length pre + 1 + k)) by lia. simpl.
      rewrite lookup_app_r by lia.
      replace (length pre + 1 + k - length pre) with (S k) by lia. simpl.
      destruct (ot !! k) as [c|] eqn:Hc; [|apply lookup_ge_None in Hc; lia].
      assert (c ∈ ot) as Hin by (by eapply list_elem_of_lookup_2).
      rewrite (Hsep c Hin).
      rewrite bool_decide_eq_false_2 by (intros ->; by apply Hdot).
      apply IH. lia. }
  rewrite length_app. simpl. replace (length pre + S (length ot))
    with (length pre + 1 + length ot) by lia.
  by apply Hloop.
Qed.


(** An output type with a dot in it is never the extension of a name:
    the name below ends with the dot and the output type, its extension
    is ".b", and the first instance of ".b" is replaced. *)
Example output_name_dotted_type :
  output_name filepath.unix
    {| Name := go "x.a.b"; OutputType := go "a.b"; Language := go "en";
       Data := λ _, Scenario.reader |}
  = go "x.a.a.b".
Proof. reflexivity. Qed.

(** X12: a name whose extension, as [filepath.Ext] gives it, is the dot
    and the output type is published under the same name.  This is so
    for every name that ends with the dot and the output type when the
    output type contains neither a dot nor a path separator. *)
Theorem output_name_unchanged_for_target_extension goos (i : Input) :
  (filepath.Ext goos (Name i) = "."%char :: OutputType i →
   output_name goos i = Name i)
  ∧ (∀ pre, Name i = pre ++ "."%char :: OutputType i →
       "."%char ∉ OutputType i →
       (∀ c, c ∈ OutputType i → filepath.IsPathSeparator goos c = false) →
       filepath.Ext goos (Name i) = "."%char :: OutputType i
       ∧ output_name goos i = Name i).
Proof.
  assert (filepath.Ext goos (Name i) = "."%char :: OutputType i →
          output_name goos i = Name i) as Hsame.
  { intros He. unfold output_name. rewrite Replace_1, He.
    destruct (strings.Index (Name i) ("."%char :: OutputType i)) as [k|] eqn:Hk; [|done].
    apply Index_Some in Hk as [Hk _]. exact (eq_sym Hk). }
  split; [exact Hsame|]. intros pre Hn Hdot Hsep.
  assert (filepath.Ext goos (Name i) = "."%char :: OutputType i) as He
    by (rewrite Hn at 1; by apply Ext_app_dot).
  split; [exact He|by apply Hsame].
Qed.

Lemma output_name_unchanged_for_target_extension_witness :
  let i := Scenario.scriberInput "talk.srt" Scenario.reader in
  output_name filepath.unix i = go "talk.srt"
  ∧ filepath.Ext filepath.unix (Name i) = go ".srt".
Proof.
  intros i.
  destruct (output_name_unchanged_for_target_extension filepath.unix i)
    as [Hext Hends].
  split; [apply Hext; reflexivity|].
  destruct (Hends (go "talk")) as [He _]; [reflexivity| | |exact He].
  - intros H. by repeat (apply elem_of_cons in H as [H|H]; [discriminate H|]);
      apply elem_of_nil in H.
  - intros c H. repeat (apply elem_of_cons in H as [->|H]; [reflexivity|]).
    by apply elem_of_nil in H.
Defined.

(** X13: when the text of the name's final extension occurs in the name
    only as that extension, and the output type contains neither a dot
    nor a path separator, the published name has the dot and the output
    type as its extension, and deriving a name from the published name
    once more changes nothing. *)
Theorem output_name_has_target_extension goos (i : Input) :
  strings.Index (Name i) (filepath.Ext goos (Name i))
    = Some (length (Name i) - length (filepath.Ext goos (Name i))) →
  "."%char ∉ OutputType i →
  (∀ c, c ∈ OutputType i → filepath.IsPathSeparator goos c = false) →
  filepath.Ext goos (output_name goos i) = "."%char :: OutputType i
  ∧ output_name goos {| Name := output_name goos i; OutputType := OutputType i;
                        Language := Language i; Data := Data i |}
    = output_name goos i.
Proof.
  intros Hi Hdot Hsep.
  assert (filepath.Ext goos (output_name goos i) = "."%char :: OutputType i) as Hext.
  { rewrite output_name_ext_replaced by done. unfold ext_replaced.
    by apply Ext_app_dot. }
  split; [done|].
  unfold output_name at 1. simpl. rewrite Replace_1, Hext.
  destruct (strings.Index (output_name goos i) ("."%char :: OutputType i))
    as [k|] eqn:Hk; [|done].
  apply Index_Some in Hk as [Hk _]. exact (eq_sym Hk).
Qed.

Lemma output_name_has_target_extension_witness :
  let i := Scenario.scriberInput "Clip.MP4" Scenario.reader in
  output_name filepath.unix i = go "Clip.srt"
  ∧ filepath.Ext filepath.unix (output_name filepath.unix i) = go ".srt".
Proof.
  intros i. split; [reflexivity|].
  destruct (output_name_has_target_extension filepath.unix i) as [H _].
  - reflexivity.
  - intros H. by repeat (apply elem_of_cons in H as [H|H]; [discriminate H|]);
      apply elem_of_nil in H.
  - intros c H. repeat (apply elem_of_cons in H as [->|H]; [reflexivity|]).
    by apply elem_of_nil in H.
  - exact H.
Defined.



(** X21: what a call of [Process] comes to is decided by its three
    stages and by the delivery channel.  It returns [nil] exactly when
    reading, transcoding and the backend call all succeed and the open
    channel has a free slot; it returns an error exactly when one of the
    three fails; it is parked exactly when all three succeed and the
    channel is full (or nil); it panics exactly when all three succeed
    and the channel is closed; and it never ends the process. *)
Theorem Process_outcome_by_stage goos env s ctx i w :
  let o := run env (Process goos s ctx i) [] w in
  let ok := read_ok i w ∧ transcoding_ok env i w ∧ transcription_ok env s ctx i w in
  ((∃ w', o = Returned None w') ↔ ok ∧ has_room (resultsCh s) w)
  ∧ ((∃ e w', o = Returned (Some e) w') ↔ ¬ ok)
  ∧ ((∃ p ds w', o = Blocked p ds w')
     ↔ ok ∧ (w_chans w !! resultsCh s = None ∨ is_full (resultsCh s) w))
  ∧ ((∃ msg w', o = Panicked msg w')
     ↔ ok ∧ ∃ c, w_chans w !! resultsCh s = Some c ∧ ch_closed c = true)
  ∧ (∀ code w', o ≠ Exited code w').
Proof.
  intros o ok. subst o ok. unfold has_room, is_full.
  destruct (Process_cases goos env s ctx i w)
    as [(e & He & ->)
       |[(e & Hr & He & ->)
        |[(e & Hr & Hp & He & ->)
         |[(c & Hr & Hp & Hb & Hc & Hcl & Hroom & ->)
          |[(Hr & Hp & Hb & Hch & ->)
           |(c & Hr & Hp & Hb & Hc & Hcl & ->)]]]]];
    unfold read_ok, transcoding_ok, transcription_ok, has_room, is_full, not in *;
    split_and!; try split; try done; try (by eauto 10);
    try (intros; exfalso;
         repeat match goal with
                | H : ∃ _, _ |- _ => destruct H
                | H : _ ∧ _ |- _ => destruct H
                | H : _ ∨ _ |- _ => destruct H
                end;
         simplify_eq; solve [congruence | lia | tauto]).
Qed.

(** * Properties of the application package *)

Lemma ToLower_nil U : app.ToLower U [] = [].
Proof. reflexivity. Qed.







(** X17: with the application's input type, whose [Data()] returns the
    same reader on every call, the reader [Process] reads is the reader
    it closes: exactly once when the call has ended after a successful
    read, not yet while the call is parked at the send, and never when
    the read fails. *)
Theorem scriberInput_reader_closed_once goos env s ctx (si : app.scriberInput) w :
  let o := run env (Process goos s ctx (app.as_Input si)) [] w in
  let t := events_since w (world_of o) in
  read_alls t = [rc_id (app.in_data si)]
  ∧ (rc_err (app.in_data si) = None → ended o → closes t = [rc_id (app.in_data si)])
  ∧ (rc_err (app.in_data si) = None → ¬ ended o → closes t = [])
  ∧ (rc_err (app.in_data si) ≠ None → closes t = []).
Proof.
  intros o t. subst o t.
  process_cases goos env s ctx (app.as_Input si) w; unfold_call; simpl in *;
    (split; [reflexivity|]); repeat split; intros; simpl in *;
    try congruence; try done; try tauto.
Qed.

Lemma scriberInput_reader_closed_once_witness :
  let si := {| app.in_name := go "lecture.mp4"; app.in_language := go "en";
               app.in_outputType := go "srt"; app.in_data := Scenario.reader |} in
  let t := events_since Scenario.w_empty
             (world_of (run Scenario.env_ok
                          (Process filepath.unix Scenario.scriber0 Background
                                   (app.as_Input si)) [] Scenario.w_empty)) in
  read_alls t = [1] ∧ closes t = [1].
Proof.
  intros si t.
  destruct (scriberInput_reader_closed_once filepath.unix Scenario.env_ok
              Scenario.scriber0 Background si Scenario.w_empty)
    as (Hread & Hclose & _).
  split; [exact Hread|]. apply Hclose; [reflexivity|exact I].
Defined.

(** ** [processFiles] and [handleStatus] *)

Section BatchProperties.
Variable goos : filepath.GOOS.
Variable env : Env.
Variable scriberSvc : Scriber.
Variable ctx : Context.

Lemma Inv_tapped files w : app.Inv (length files) (app.tapped files w).
Proof. unfold app.Inv. simpl. repeat split; lia. Qed.

Lemma Inv_send_status n status next y y' :
  app.Inv n y →
  app.send_status status next y = Some y' →
  app.st_closed (app.sys_status y) = false
  ∧ length (app.st_buf (app.sys_status y)) < 10
  ∧ y' = {| app.sys_prod := next; app.sys_cons := app.sys_cons y;
            app.sys_status := {| app.st_cap := 10;
                                 app.st_buf := app.st_buf (app.sys_status y) ++ [status];
                                 app.st_closed := false |};
            app.sys_readers := app.sys_readers y;
            app.sys_world := app.sys_world y; app.sys_ui := app.sys_ui y |}.
Proof.
  intros (Hcap & Hcl & Hlen & _). unfold app.send_status. rewrite Hcl, Hcap.
  case_bool_decide; [|done]. by intros [= <-].
Qed.

Lemma Inv_after_Process n o file rest y :
  app.Inv n y →
  (∃ p ds, app.sys_prod y = app.P_parked p ds file rest)
  ∨ app.sys_prod y = app.P_call file rest →
  app.Inv n (app.after_Process o file rest y).
Proof.
  intros (Hcap & Hcl & Hlen & Hp) Hprod.
  assert (app.sys_readers y = 1 ∧ app.sys_ui y = [] ∧ app.sys_cons y ≠ app.C_exit
          ∧ S (2 * length rest) + length (app.st_buf (app.sys_status y))
            + app.held (app.sys_cons y) = 2 * n) as (Hr & Hui & Hce & Hsum).
  { destruct Hprod as [(p & ds & Hprod)|Hprod]; by rewrite Hprod in Hp. }
  destruct o; unfold app.Inv; simpl; repeat split; try done.
Qed.

Lemma Inv_producer_step n y y' :
  app.Inv n y → app.producer_step goos env scriberSvc ctx y = Some y' → app.Inv n y'.
Proof.
  intros HI Hs. unfold app.producer_step in Hs.
  destruct (app.sys_prod y) as [files|[|file rest]|file rest|p ds file rest
                               |file [e|] rest| | |msg] eqn:Hprod.
  - destruct HI as (Hcap & Hcl & Hlen & Hp). rewrite Hprod in Hp.
    destruct Hp as (Hn & Hbuf & Hcons & Hr & Hui). rewrite Hcons in Hs.
    injection Hs as <-. unfold app.Inv. simpl. rewrite Hbuf, Hr. simpl.
    repeat split; try done; lia.
  - injection Hs as <-. unfold app.Inv in *. rewrite Hprod in HI. simpl in *.
    intuition lia.
  - destruct (Inv_send_status _ _ _ _ _ HI Hs) as (Hcl & Hlt & ->).
    unfold app.Inv in *. rewrite Hprod in HI. simpl in *.
    rewrite length_app. simpl. intuition lia.
  - injection Hs as <-. apply Inv_after_Process; auto.
  - assert (y' = app.after_Process (run env p ds (app.sys_world y)) file rest y)
      as -> by (destruct (run env p ds (app.sys_world y)); congruence).
    apply Inv_after_Process; eauto.
  - destruct (Inv_send_status _ _ _ _ _ HI Hs) as (Hcl & Hlt & ->).
    unfold app.Inv in *. rewrite Hprod in HI. simpl in *.
    rewrite length_app. simpl. intuition lia.
  - destruct (Inv_send_status _ _ _ _ _ HI Hs) as (Hcl & Hlt & ->).
    unfold app.Inv in *. rewrite Hprod in HI. simpl in *.
    rewrite length_app. simpl. intuition lia.
  - injection Hs as <-. unfold app.Inv in *. rewrite Hprod in HI. simpl in *.
    destruct HI as (Hcap & Hcl & Hlen & Hr & Hui & Hce & Hsum).
    repeat split; try done.
    destruct (app.sys_cons y); simpl in Hsum; lia.
  - discriminate Hs.
  - discriminate Hs.
Qed.

Lemma Inv_consumer_step n y y' :
  app.Inv n y → app.consumer_step y = Some y' → app.Inv n y'.
Proof.
  intros (Hcap & Hcl & Hlen & Hp) Hs. unfold app.consumer_step in Hs.
  destruct (app.sys_prod y) eqn:Hprod; try discriminate Hs;
    destruct (app.sys_cons y) eqn:Hcons; try discriminate Hs;
    try destruct (app.st_buf (app.sys_status y)) as [|status0 rest0] eqn:Hbuf;
    rewrite ?Hcl in Hs; try discriminate Hs;
    try (destruct Hp as (Hr & Hui & Hce & Hsum); rewrite ?Hr in Hs);
    simpl in Hs; try discriminate Hs;
    try (case_bool_decide; try discriminate Hs);
    try (by destruct Hp as (_ & _ & [=] & _));
    try (by destruct Hp as (_ & [=] & _));
    injection Hs as <-;
    unfold app.Inv, app.show, app.set_cons; simpl; rewrite ?Hprod, ?Hcons;
    simpl in *; rewrite ?Hbuf; simpl; repeat split; try done; try lia.
Qed.

Lemma Inv_reachable files w y :
  rtc (app.step goos env scriberSvc ctx) (app.tapped files w) y →
  app.Inv (length files) y.
Proof.
  revert y. apply rtc_ind_r; [apply Inv_tapped|].
  intros y z _ [Hs|Hs] HI;
    [by eapply Inv_producer_step|by eapply Inv_consumer_step].
Qed.

Lemma producer_run_reachable k y :
  rtc (app.step goos env scriberSvc ctx) y
      (app.producer_run goos env scriberSvc ctx k y).
Proof.
  revert y. induction k as [|k IH]; intros y; simpl; [done|].
  destruct (app.producer_step goos env scriberSvc ctx y) as [y'|] eqn:Hs; [|done].
  eapply rtc_l; [by left|apply IH].
Qed.

Lemma consumer_run_reachable k y :
  rtc (app.step goos env scriberSvc ctx) y (app.consumer_run k y).
Proof.
  revert y. induction k as [|k IH]; intros y; simpl; [done|].
  destruct (app.consumer_step y) as [y'|] eqn:Hs; [|done].
  eapply rtc_l; [by right|apply IH].
Qed.


(** X19: with six or more files selected, [processFiles] never gets to
    its end, whatever the order in which the two goroutines run and
    whatever the calls of [Process] do: the channel takes ten statuses
    and [handleStatus] one, and the batch has at least twelve to send.
    The progress bar is never hidden and nothing is ever shown. *)
Theorem six_files_never_finish files w y :
  6 ≤ length files →
  rtc (app.step goos env scriberSvc ctx) (app.tapped files w) y →
  app.sys_prod y ≠ app.P_done
  ∧ app.sys_prod y ≠ app.P_hide
  ∧ app.sys_ui y = []
  ∧ ((∀ msg, app.sys_prod y ≠ app.P_crashed msg) →
     2 * length files ≤ app.remaining (app.sys_prod y) + 11).
Proof.
  intros Hn Hr. apply Inv_reachable in Hr as (_ & _ & Hlen & Hp).
  assert (app.held (app.sys_cons y) ≤ 1) as Hheld
    by (destruct (app.sys_cons y); simpl; lia).
  destruct (app.sys_prod y) eqn:Hprod; simpl in *;
    try (destruct Hp as (? & ? & ? & ?); repeat split; try done; lia).
  - destruct Hp as (Hl & ? & ? & ? & ?). repeat split; try done. lia.
  - lia.
  - repeat split; try done. intros Hnc. exfalso. by eapply Hnc.
Qed.

Lemma batch_cons file rest w :
  app.batch goos env scriberSvc ctx (file :: rest) w
  = match run env (Process goos scriberSvc ctx (app.input_of file)) [] w with
    | Returned e w1 =>
        match app.batch goos env scriberSvc ctx rest w1 with
        | Some (results, w2) => Some ((file, e) :: results, w2)
        | None => None
        end
    | _ => None
    end.
Proof. reflexivity. Qed.

Lemma batch_results files w results w' :
  app.batch goos env scriberSvc ctx files w = Some (results, w') →
  results.*1 = files.
Proof.
  revert w results. induction files as [|file rest IH]; intros w results Hb.
  - by injection Hb as <- <-.
  - rewrite batch_cons in Hb.
    destruct (run env (Process goos scriberSvc ctx (app.input_of file)) [] w)
      as [e w1| | |]; try done.
    destruct (app.batch goos env scriberSvc ctx rest w1) as [[rs w2]|] eqn:Hrest;
      [|done].
    injection Hb as <- <-. simpl. f_equal. by eapply IH.
Qed.

(** From the head of the loop, with room in the status channel for two
    statuses per file, [processFiles] runs to its end on its own. *)
Lemma producer_loop_completes files :
  ∀ buf w results w' c r u,
    app.batch goos env scriberSvc ctx files w = Some (results, w') →
    length buf + 2 * length files ≤ 10 →
    app.producer_run goos env scriberSvc ctx (3 * length files + 2)
      {| app.sys_prod := app.P_loop files; app.sys_cons := c;
         app.sys_status := {| app.st_cap := 10; app.st_buf := buf;
                              app.st_closed := false |};
         app.sys_readers := r; app.sys_world := w; app.sys_ui := u |}
    = {| app.sys_prod := app.P_done; app.sys_cons := c;
         app.sys_status := {| app.st_cap := 10;
                              app.st_buf := buf ++ flat_map app.statuses_of results;
                              app.st_closed := false |};
         app.sys_readers := pred r; app.sys_world := w';
         app.sys_ui := u ++ [app.HideProgressBar] |}.
Proof.
  induction files as [|file rest IH]; intros buf w results w' c r u Hb Hroom.
  - injection Hb as <- <-. simpl. by rewrite app_nil_r.
  - rewrite batch_cons in Hb.
    destruct (run env (Process goos scriberSvc ctx (app.input_of file)) [] w)
      as [e w1| | |] eqn:Hrun; try done.
    destruct (app.batch goos env scriberSvc ctx rest w1) as [[rs w2]|] eqn:Hrest; [|done].
    injection Hb as <- <-. simpl in Hroom.
    replace (3 * length (file :: rest) + 2) with (S (S (S (3 * length rest + 2))))
      by (simpl; lia).
    cbn [app.producer_run].
    unfold app.producer_step at 1, app.send_status. cbn [app.sys_prod app.sys_status
      app.st_closed app.st_buf app.st_cap].
    rewrite bool_decide_eq_true_2 by lia.
    unfold app.producer_step at 1. cbn [app.sys_prod app.sys_world]. rewrite Hrun.
    cbn [app.after_Process].
    assert (∀ (status : app.progressStatus) y,
              app.send_status status (app.P_loop rest)
                {| app.sys_prod := app.P_report file e rest; app.sys_cons := c;
                   app.sys_status := {| app.st_cap := 10; app.st_buf := y;
                                        app.st_closed := false |};
                   app.sys_readers := r; app.sys_world := w1; app.sys_ui := u |}
              = if bool_decide (length y < 10) then
                  Some {| app.sys_prod := app.P_loop rest; app.sys_cons := c;
                          app.sys_status := {| app.st_cap := 10;
                                               app.st_buf := y ++ [status];
                                               app.st_closed := false |};
                          app.sys_readers := r; app.sys_world := w1; app.sys_ui := u |}
                else None) as Hsend by done.
    assert (app.producer_step goos env scriberSvc ctx
              {| app.sys_prod := app.P_report file e rest; app.sys_cons := c;
                 app.sys_status :=
                   {| app.st_cap := 10;
                      app.st_buf := buf ++ [{| app.filename := app.file_name file;
                                               app.stage := go "processing";
                                               app.err := None |}];
                      app.st_closed := false |};
                 app.sys_readers := r; app.sys_world := w1; app.sys_ui := u |}
            = Some {| app.sys_prod := app.P_loop rest; app.sys_cons := c;
                      app.sys_status :=
                        {| app.st_cap := 10;
                           app.st_buf := buf ++ app.statuses_of (file, e);
                           app.st_closed := false |};
                      app.sys_readers := r; app.sys_world := w1; app.sys_ui := u |})
      as Hstep.
    { unfold app.producer_step. cbn [app.sys_prod].
      destruct e as [e|]; rewrite Hsend, bool_decide_eq_true_2
        by (rewrite length_app; simpl; lia);
        unfold app.statuses_of; simpl; by rewrite <- app_assoc. }
    cbn [app.sys_cons app.sys_readers app.sys_ui app.sys_world app.sys_status].
    rewrite Hstep. rewrite (IH _ _ _ _ _ _ _ Hrest).
    + simpl. by rewrite <- app_assoc.
    + rewrite length_app. simpl. lia.
Qed.

Lemma consumer_drains buf :
  ∀ prod w u,
    (∀ msg, prod ≠ app.P_crashed msg) →
    app.consumer_run (2 * length buf)
      {| app.sys_prod := prod; app.sys_cons := app.C_idle;
         app.sys_status := {| app.st_cap := 10; app.st_buf := buf;
                              app.st_closed := false |};
         app.sys_readers := 0; app.sys_world := w; app.sys_ui := u |}
    = {| app.sys_prod := prod; app.sys_cons := app.C_idle;
         app.sys_status := {| app.st_cap := 10; app.st_buf := [];
                              app.st_closed := false |};
         app.sys_readers := 0; app.sys_world := w;
         app.sys_ui := u ++ flat_map app.updateStatus buf |}.
Proof.
  induction buf as [|status rest IH]; intros prod w u Hnc.
  - simpl. by rewrite app_nil_r.
  - replace (2 * length (status :: rest)) with (S (S (2 * length rest)))
      by (simpl; lia).
    cbn [app.consumer_run].
    assert (∀ y : app.Sys, app.sys_prod y = prod →
              app.consumer_step y
              = match app.sys_cons y with
                | app.C_idle =>
                    match app.st_buf (app.sys_status y) with
                    | status :: rest =>
                        Some {| app.sys_prod := app.sys_prod y;
                                app.sys_cons := app.C_got status;
                                app.sys_status :=
                                  {| app.st_cap := app.st_cap (app.sys_status y);
                                     app.st_buf := rest;
                                     app.st_closed := app.st_closed (app.sys_status y) |};
                                app.sys_readers := app.sys_readers y;
                                app.sys_world := app.sys_world y;
                                app.sys_ui := app.sys_ui y |}
                    | [] => if app.st_closed (app.sys_status y)
                            then Some (app.set_cons app.C_exit y) else None
                    end
                | app.C_got status =>
                    if bool_decide (app.sys_readers y = 0)
                    then Some (app.show status y)
                    else Some (app.set_cons (app.C_waiting status) y)
                | app.C_waiting status =>
                    if bool_decide (app.sys_readers y = 0)
                    then Some (app.show status y) else None
                | app.C_exit => None
                end) as Hcs.
    { intros y Hy. unfold app.consumer_step. rewrite Hy.
      destruct prod; try done. by destruct (Hnc msg). }
    rewrite Hcs by done. cbn [app.sys_cons app.sys_status app.st_buf app.st_cap
      app.st_closed app.sys_prod app.sys_readers app.sys_world app.sys_ui].
    rewrite Hcs by done. cbn [app.sys_cons app.sys_readers].
    rewrite bool_decide_eq_true_2 by done. unfold app.show.
    cbn [app.sys_cons app.sys_status app.st_buf app.st_cap
      app.st_closed app.sys_prod app.sys_readers app.sys_world app.sys_ui].
    rewrite IH by done. cbn [flat_map].
    by rewrite <- app_assoc.
Qed.

(** X20: with at most five files selected and every call of [Process]
    returning, [processFiles] gets through the whole selection: for each
    file in turn it sends "processing" and then "completed", or "failed"
    with the error [Process] returned, and it goes on with the next file
    after a failure.  It then hides the progress bar and gives the lock
    back; [handleStatus], run after that, shows the statuses in the
    order in which they were sent and empties the channel. *)
Theorem batch_of_five_completes files w results w' :
  app.batch goos env scriberSvc ctx files w = Some (results, w') →
  length files ≤ 5 →
  let sent := flat_map app.statuses_of results in
  let y1 := app.producer_run goos env scriberSvc ctx (3 * length files + 3)
              (app.tapped files w) in
  results.*1 = files
  ∧ y1 = {| app.sys_prod := app.P_done; app.sys_cons := app.C_idle;
            app.sys_status := {| app.st_cap := 10; app.st_buf := sent;
                                 app.st_closed := false |};
            app.sys_readers := 0; app.sys_world := w';
            app.sys_ui := [app.HideProgressBar] |}
  ∧ app.consumer_run (4 * length files) y1
    = {| app.sys_prod := app.P_done; app.sys_cons := app.C_idle;
         app.sys_status := {| app.st_cap := 10; app.st_buf := [];
                              app.st_closed := false |};
         app.sys_readers := 0; app.sys_world := w';
         app.sys_ui := app.HideProgressBar :: flat_map app.updateStatus sent |}.
Proof.
  intros Hb Hn sent y1.
  pose proof (batch_results _ _ _ _ Hb) as Hfst.
  assert (y1 = {| app.sys_prod := app.P_done; app.sys_cons := app.C_idle;
                  app.sys_status := {| app.st_cap := 10; app.st_buf := sent;
                                       app.st_closed := false |};
                  app.sys_readers := 0; app.sys_world := w';
                  app.sys_ui := [app.HideProgressBar] |}) as Hy1.
  { unfold y1. replace (3 * length files + 3) with (S (3 * length files + 2)) by lia.
    cbn [app.producer_run]. unfold app.producer_step at 1, app.tapped.
    cbn [app.sys_prod app.sys_cons app.sys_status app.sys_readers app.sys_world
         app.sys_ui].
    unfold app.initComponents_statusCh.
    rewrite (producer_loop_completes files [] w results w'); [done|done|simpl; lia]. }
  split; [done|]. split; [done|]. rewrite Hy1.
  assert (4 * length files = 2 * length sent) as ->.
  { unfold sent. rewrite <- Hfst, length_fmap. clear.
    induction results as [|r rs IH]; simpl in *; lia. }
  by rewrite consumer_drains.
Qed.

(** X22: the calls of [Process] that [processFiles] makes for a batch
    leave one output in the delivery channel for every file that went
    well, behind what was there and in the order of the files; a file
    that failed leaves none, and nothing is taken out.  So a batch whose
    calls all return fits into the room the channel had: what was
    buffered plus the successes of the batch is at most the capacity. *)
Theorem batch_fills_delivery_channel files w results w' c :
  app.batch goos env scriberSvc ctx files w = Some (results, w') →
  w_chans w !! resultsCh scriberSvc = Some c →
  length (ch_buf c) ≤ ch_cap c →
  w_chans w' !! resultsCh scriberSvc
  = Some {| ch_cap := ch_cap c;
            ch_buf := ch_buf c ++ app.published goos env scriberSvc ctx results;
            ch_closed := ch_closed c |}
  ∧ length (ch_buf c) + length (app.published goos env scriberSvc ctx results)
    ≤ ch_cap c.
Proof.
  revert w results c.
  induction files as [|file rest IH]; intros w results c Hb Hc Hlen.
  - injection Hb as <- <-. simpl. rewrite app_nil_r. split; [|lia].
    rewrite Hc. by destruct c.
  - rewrite batch_cons in Hb.
    destruct (run env (Process goos scriberSvc ctx (app.input_of file)) [] w)
      as [e w1| | |] eqn:Hrun; try done.
    destruct (app.batch goos env scriberSvc ctx rest w1) as [[rs w2]|] eqn:Hrest; [|done].
    injection Hb as <- <-.
    pose proof (Process_cases goos env scriberSvc ctx (app.input_of file) w) as Hcases.
    cbv zeta in Hcases. rewrite Hrun in Hcases.
    destruct Hcases
      as [(e0 & _ & Heq)
         |[(e0 & _ & _ & Heq)
          |[(e0 & _ & _ & _ & Heq)
           |[(c0 & _ & _ & _ & Hc0 & Hcl & Hroom & Heq)
            |[(_ & _ & _ & _ & Heq)
             |(c0 & _ & _ & _ & _ & _ & Heq)]]]]];
      try discriminate Heq; injection Heq as -> ->.
    + by apply (IH _ _ c Hrest).
    + by apply (IH _ _ c Hrest).
    + apply (IH _ _ c Hrest); rewrite ?run_defers_chans; done.
    + assert (c0 = c) as -> by congruence.
      destruct (IH _ _ {| ch_cap := ch_cap c;
                          ch_buf := ch_buf c ++ [app.output_of goos env scriberSvc ctx file];
                          ch_closed := false |} Hrest) as [Hw2 Hle].
      * rewrite ?run_defers_chans. simpl. by rewrite lookup_insert_eq.
      * simpl. rewrite length_app. simpl. lia.
      * simpl in *. rewrite length_app in Hle. simpl in Hle.
        rewrite Hw2, Hcl, <- app_assoc. split; [done|lia].
Qed.

End BatchProperties.


Lemma six_files_never_finish_witness :
  let ctx := cancelCtx Background in
  let run_p := app.producer_run filepath.unix Scenario.env_ok Scenario.scriber0 ctx 50 in
  let y := run_p (app.consumer_run 50 (run_p (app.tapped AppScenario.six Scenario.w_empty))) in
  app.sys_prod y = app.P_report (AppScenario.file 6 "f.mp4") None []
  ∧ app.producer_step filepath.unix Scenario.env_ok Scenario.scriber0 ctx y = None
  ∧ app.consumer_step y = None
  ∧ length (app.st_buf (app.sys_status y)) = 10
  ∧ app.sys_prod y ≠ app.P_done
  ∧ app.sys_ui y = [].
Proof.
  intros ctx run_p y.
  destruct (six_files_never_finish filepath.unix Scenario.env_ok
              Scenario.scriber0 ctx AppScenario.six Scenario.w_empty y)
    as (Hnd & _ & Hui & _).
  - simpl. lia.
  - eapply rtc_trans; [apply producer_run_reachable|].
    eapply rtc_trans; [apply consumer_run_reachable|apply producer_run_reachable].
  - split; [vm_compute; reflexivity|]. split; [vm_compute; reflexivity|].
    split; [vm_compute; reflexivity|]. split; [vm_compute; reflexivity|].
    split; [exact Hnd|exact Hui].
Defined.

Lemma batch_of_five_completes_witness :
  let ctx := cancelCtx Background in
  let env := AppScenario.env_second_fails in
  let y1 := app.producer_run filepath.unix env Scenario.scriber0 ctx
              (3 * length AppScenario.three + 3)
              (app.tapped AppScenario.three Scenario.w_empty) in
  app.sys_ui (app.consumer_run (4 * length AppScenario.three) y1)
  = [ app.HideProgressBar;
      app.SetStatusText (go "File: a.mp4" ++ "010"%char :: go "Status: processing");
      app.SetStatusText (go "File: a.mp4" ++ "010"%char :: go "Status: completed");
      app.AddResult (go "Completed: a.mp4");
      app.ShowResults;
      app.SetStatusText (go "File: b.mp3" ++ "010"%char :: go "Status: processing");
      app.ShowError (wrapError "error processing file b.mp3: "
                       (wrapError "ffmpeg failed: " (ExitError 1)));
      app.SetStatusText (go "File: c.wav" ++ "010"%char :: go "Status: processing");
      app.SetStatusText (go "File: c.wav" ++ "010"%char :: go "Status: completed");
      app.AddResult (go "Completed: c.wav");
      app.ShowResults ].
Proof.
  intros ctx env y1.
  destruct (app.batch filepath.unix env Scenario.scriber0 ctx AppScenario.three
              Scenario.w_empty) as [[results w']|] eqn:Hb;
    [|vm_compute in Hb; discriminate Hb].
  destruct (batch_of_five_completes filepath.unix env Scenario.scriber0 ctx
              AppScenario.three Scenario.w_empty results w' Hb)
    as (_ & _ & Hc); [simpl; lia|].
  fold y1 in Hc. rewrite Hc. cbn [app.sys_ui].
  vm_compute in Hb. injection Hb as <- _. reflexivity.
Defined.

Lemma batch_fills_delivery_channel_witness :
  let ctx := cancelCtx Background in
  let env := AppScenario.env_second_fails in
  ∃ results w',
    app.batch filepath.unix env Scenario.scriber0 ctx AppScenario.three
      Scenario.w_empty = Some (results, w')
    ∧ w_chans w' !! 0
      = Some {| ch_cap := 10;
                ch_buf := [ {| out_Name := go "a.srt"; out_Text := Scenario.srt |};
                            {| out_Name := go "c.srt"; out_Text := Scenario.srt |} ];
                ch_closed := false |}.
Proof.
  intros ctx env.
  destruct (app.batch filepath.unix env Scenario.scriber0 ctx AppScenario.three
              Scenario.w_empty) as [[results w']|] eqn:Hb;
    [|vm_compute in Hb; discriminate Hb].
  exists results, w'. split; [reflexivity|].
  destruct (batch_fills_delivery_channel filepath.unix env Scenario.scriber0 ctx
              AppScenario.three Scenario.w_empty results w'
              {| ch_cap := 10; ch_buf := []; ch_closed := false |} Hb)
    as [Hw _]; [reflexivity|simpl; lia|].
  change (resultsCh Scenario.scriber0) with 0 in Hw. rewrite Hw.
  vm_compute in Hb. injection Hb as <- _. reflexivity.
Defined.
